(** * Discovery server: a shallow embedding of package [discovery]

    The Go package drives an IPFS node: it boots it ([Start]), connects it
    to the bootstrap peers ([dhtConnect]), publishes and resolves the three
    network artifacts ([Publish], [Join]) and advertises and looks up
    providers ([Announce], [Peers]).

    Every call into a collaborator (go-ipfs, libp2p, the OS, encoding/json)
    is a field of [Env]; the package's own control flow is written out in a
    small monad that threads the receiver [*Server], the resources held and
    the ordered list of calls performed.  The list of calls of a goroutine
    is its program; programs are interleaved by a scheduler over unbuffered
    channels to speak about the readiness channel and the output channel
    of [Peers].

    What is assumed of the collaborators: every call returns, its answer
    depends on its arguments only, and an error comes with a nil value.
    The two places where the package hands a collaborator a nil it has not
    checked (the node of [Stop], the image path of [Join]) are the
    exception: there the collaborator answers or panics, as it sees fit.
    Time is not modelled: a timeout is the duration handed to
    [context.WithTimeout], and the provider channel of the DHT is the
    finite sequence of records it yields before the DHT closes it. *)

From Stdlib Require Import Strings.Byte.
From stdpp Require Import base option list strings gmap pretty.

Open Scope string_scope.
Open Scope list_scope.
Open Scope stdpp_scope.

(** ** Go values *)

(** A Go slice is either [nil] or a (possibly empty) sequence. *)
Definition slice (A : Type) : Type := option (list A).

Definition slice_elems {A} (s : slice A) : list A := default [] s.

(** [append(s, v)]: the result is never [nil]. *)
Definition append {A} (s : slice A) (v : A) : slice A :=
  Some (slice_elems s ++ [v]).

Definition bytes : Type := list byte.

(** Go [error] values: those handed back by a collaborator, those built by
    [errors.Wrap] and the one [fmt.Errorf] of the package. *)
Inductive error : Type :=
| Cause (what : string)
| Wrap (cause : error) (message : string)
| ErrAlreadyAccessing (root : string).

Definition errors_Wrap (err : error) (message : string) : error :=
  Wrap err message.

(** What a collaborator call hands back: a value, or an error (and then,
    following the Go convention these libraries keep, a nil value). *)
Inductive result (A : Type) : Type :=
| Ok (a : A)
| Err (err : error).
Arguments Ok {A} a.
Arguments Err {A} err.

(** The [error] a call returns: nil when it succeeds. *)
Definition error_of {A} (r : result A) : option error :=
  match r with
  | Err err => Some err
  | Ok _ => None
  end.

(** ** Data model of the package *)

(** [type PeerInfo struct]. *)
Record PeerInfo : Type := mkPeerInfo {
  NodeID : string;
  IP : slice string;
  TendermintP2PPort : Z
}.

(** [&PeerInfo{}]: every field at its zero value. *)
Definition PeerInfo_zero : PeerInfo :=
  {| NodeID := ""; IP := None; TendermintP2PPort := 0 |}.

Definition set_IP (p : PeerInfo) (ips : slice string) : PeerInfo :=
  {| NodeID := NodeID p; IP := ips; TendermintP2PPort := TendermintP2PPort p |}.

(** Handles owned by the collaborators. *)
Inductive File : Type := FileHandle (n : nat).
Inductive Path : Type := IpfsPath (p : string).
Inductive Cid : Type := CidOf (s : string).
Inductive Repo : Type := RepoAt (root : string).
Inductive Stream : Type := StreamNo (n : nat).
Inductive FileInfo : Type := StatOf (p : string).
Inductive SerialFile : Type := SerialDir (name : string) (children : gmap string bytes).

Definition Cid_String (c : Cid) : string := let 'CidOf s := c in s.

(** [core.IpfsNode], as far as the package looks into it. *)
Record IpfsNode : Type := mkNode {
  PeerHost_ID : string;
  node_Repo : Repo
}.

Record IpfsDHT : Type := mkDHT { dht_host : string }.
Record CoreAPI : Type := mkAPI { api_node : IpfsNode }.

(** [config.Config]: the two address lists [ipfsInit] resets. *)
Record Config : Type := mkConfig {
  Identity : string;
  Addresses_API : list string;
  Addresses_Gateway : list string
}.

(** [core.BuildCfg]. *)
Record BuildCfg : Type := mkBuildCfg {
  Online : bool;
  cfg_Repo : Repo
}.

(** A multiaddr, kept in its textual form; [multiaddr.P_IP4] is the code of
    the ip4 protocol. *)
Inductive Multiaddr : Type := MA (text : string).
Definition P_IP4 : Z := 4.

(** [iaddr.IPFSAddr] with its [Multiaddr()] accessor. *)
Record IPFSAddr : Type := mkIPFSAddr { ipfsaddr_Multiaddr : Multiaddr }.

(** [pstore.PeerInfo]: a provider record of the DHT. *)
Record Provider : Type := mkProvider {
  ID : string;
  Addrs : list Multiaddr
}.

(** [type NetworkInfo struct]. *)
Record NetworkInfo : Type := mkNetworkInfo {
  Manifest : bytes;
  Genesis : bytes;
  Image : File
}.

(** [type Server struct]. [connectedCh] is the identity of the channel
    made by [New]. *)
Record Server : Type := mkServer {
  root : string;
  port : Z;
  node : option IpfsNode;
  dht : option IpfsDHT;
  connectedCh : nat;
  api : option CoreAPI
}.

Definition nBitsForKeypairDefault : Z := 4096.

Definition bootstrapPeers : list string :=
  [ "/ip4/104.131.131.82/tcp/4001/ipfs/QmaCpDMGvV2BGHeYERUEnRQAwe3N8SzbUtfsmvsqQLuvuJ";
    "/ip4/104.236.179.241/tcp/4001/ipfs/QmSoLPppuBtQSGwKDZT2M73ULpjvfd3aZ6ha4oFGL1KrGM";
    "/ip4/104.236.76.40/tcp/4001/ipfs/QmSoLV4Bbm51jM9C4gDYZQ9Cy3U6aXMJDAbzgu2fzaDs64";
    "/ip4/128.199.219.111/tcp/4001/ipfs/QmSoLSafTMBsPKadTEgaXctDQVcqN88CNLHXMkTNwMKPnu";
    "/ip4/178.62.158.247/tcp/4001/ipfs/QmSoLer265NRgSp2LA3dPaeykiS1J6DifTC88f5uVQKNAd" ].

(** The protocol identifier of the peer-info exchange. *)
Definition protocolID : string := "/chainkit/0.1.0".

(** ** Calls and channel operations, in the order a goroutine performs them *)

#[warnings="-register-all"]
Inductive Event : Type :=
| ev_ui_Info
| ev_ui_Error
| ev_LockedByOtherProcess (root : string)
| ev_LoadPlugins (dir : string)
| ev_IsInitialized (root : string)
| ev_config_Init (nbits : Z)
| ev_fsrepo_Init (root : string) (conf : Config)
| ev_fsrepo_Open (root : string)
| ev_SetConfigKey (key : string) (value : list string)
| ev_NewNode (cfg : BuildCfg)
| ev_NewCoreAPI
| ev_dht_New
| ev_node_Close (n : option IpfsNode)
| ev_go (body : list Event)
| ev_crash
| ev_ParseString (addr : string)
| ev_InfoFromP2pAddr (addr : Multiaddr)
| ev_Connect (peer : Provider)
| ev_close (ch : nat)
| ev_recv (ch : nat)
| ev_send (ch : nat) (v : PeerInfo)
| ev_TempDir
| ev_Stat (p : string)
| ev_Link (src : string) (dst : string)
| ev_NewSerialFile (name : string) (dir : string)
| ev_Add (f : SerialFile)
| ev_ParsePath (p : string)
| ev_Get (p : option Path)
| ev_ReadAll (f : File)
| ev_cid_Decode (s : string)
| ev_SetStreamHandler (protocol : string) (reply : PeerInfo)
| ev_WithTimeout (seconds : Z)
| ev_cancel
| ev_Provide (id : Cid) (announce : bool)
| ev_FindProvidersAsync (id : Cid) (count : Z)
| ev_NewStream (peer : string) (protocol : string)
| ev_json_Decode (s : Stream).

(** What the package opens: the ledger of a goroutine lists, in order, the
    repository and the node its own calls have opened.  Nothing is ever
    struck off it: the package closes nothing but the node handed to
    [Close] by [Stop], and what that call gives back is the business of
    go-ipfs. *)
Inductive Resource : Type :=
| ResRepo (r : Repo)
| ResNode (n : IpfsNode).

(** ** The collaborators

    One field for each library function the package calls, named after
    it.  [fs_content p] is the content of the file [p] names;
    [dht_FindProvidersAsync id n] is what the provider channel yields
    before the DHT closes it (when the providers are exhausted, the
    timeout has elapsed or the context is cancelled); [json_Decode s into]
    is the record [into] after one JSON value read from [s] has been
    decoded into it (a reply without [ips], or with [null] for it, leaves
    [IP] nil).  [node_Close_nil] is what [Close] does on a nil node and
    [unixfs_Get_nil] what [Get] does with a nil path: an answer, or [None]
    for a panic inside the library. *)

Record Env : Type := mkEnv {
  path_Join : list string → string;
  fsrepo_LockedByOtherProcess : string → result bool;
  loader_LoadPlugins : string → result unit;
  fsrepo_IsInitialized : string → bool;
  config_Init : Z → result Config;
  fsrepo_Init : string → Config → result unit;
  fsrepo_Open : string → result Repo;
  repo_SetConfigKey : Repo → string → list string → result unit;
  core_NewNode : BuildCfg → result IpfsNode;
  dht_New : IpfsNode → result IpfsDHT;
  node_Close : IpfsNode → result unit;
  node_Close_nil : option (result unit);
  iaddr_ParseString : string → result IPFSAddr;
  pstore_InfoFromP2pAddr : Multiaddr → result Provider;
  host_Connect : Provider → result unit;
  ioutil_TempDir : result string;
  os_Stat : string → result FileInfo;
  os_Link : string → string → result unit;
  fs_content : string → bytes;
  files_NewSerialFile : string → string → bool → FileInfo → result unit;
  unixfs_Add : SerialFile → result Cid;
  iface_ParsePath : string → result Path;
  unixfs_Get : Path → result File;
  unixfs_Get_nil : option (result File);
  ioutil_ReadAll : File → result bytes;
  cid_Decode : string → result Cid;
  dht_Provide : Cid → result unit;
  dht_FindProvidersAsync : Cid → Z → list Provider;
  host_NewStream : string → string → result Stream;
  json_Decode : Stream → PeerInfo → result PeerInfo;
  ma_ValueForProtocol : Multiaddr → Z → result string
}.

(** ** The monad of one goroutine *)

Record World : Type := mkWorld {
  server : Server;
  held : list Resource;
  trace : list Event
}.

(** A computation either finishes with a value or panics. *)
Definition Act (A : Type) : Type := World → option A * World.

Global Instance Act_ret : MRet Act := λ A a w, (Some a, w).
Global Instance Act_bind : MBind Act := λ A B f m w,
  match m w with
  | (Some a, w') => f a w'
  | (None, w') => (None, w')
  end.

Definition emit (e : Event) : Act unit := λ w,
  (Some tt, {| server := server w; held := held w; trace := trace w ++ [e] |}).

(** Perform a collaborator call: record it and take its answer. *)
Definition call {A} (e : Event) (answer : A) : Act A :=
  _ ← emit e; mret answer.

(** A nil dereference: the goroutine panics. *)
Definition panic {A} : Act A := λ w, (None, w).

Definition acquire (r : Resource) : Act unit := λ w,
  (Some tt, {| server := server w; held := held w ++ [r]; trace := trace w |}).

(** A call that may panic inside the collaborator: it is recorded, and its
    answer taken if there is one. *)
Definition call_or_panic {A} (e : Event) (answer : option A) : Act A :=
  _ ← emit e;
  match answer with
  | Some a => mret a
  | None => panic
  end.

Definition get_server : Act Server := λ w, (Some (server w), w).

Definition set_server (s : Server) : Act unit := λ w,
  (Some tt, {| server := s; held := held w; trace := trace w |}).

(** [defer d] in front of a body: [d] runs when the body returns and also
    when it panics. *)
Definition defer {A} (d : Act unit) (body : Act A) : Act A := λ w,
  let '(r, w1) := body w in
  let '(_, w2) := d w1 in
  (r, w2).

(** A goroutine started on server [s], holding nothing yet. *)
Definition run {A} (m : Act A) (s : Server) : option A * World :=
  m {| server := s; held := []; trace := [] |}.

(** Its program: the calls it performs in order; a goroutine that panics
    brings the process down once its deferred calls have run. *)
Definition events_of {A} (m : Act A) (s : Server) : list Event :=
  let '(r, w) := run m s in
  trace w ++ (if r is None then [ev_crash] else []).

(** [New(root, port)]: the channel is fresh and open. *)
Definition New (root : string) (port : Z) (ch : nat) : Server :=
  {| root := root; port := port; node := None; dht := None;
     connectedCh := ch; api := None |}.

Section Discovery.

Variable E : Env.

(** [s.api.Unixfs()]: a method call on the interface value [s.api]; on a
    nil interface it panics. *)
Definition Unixfs : Act CoreAPI :=
  s ← get_server;
  match api s with
  | None => panic
  | Some a => mret a
  end.

(** [Get(ctx, p)] on a path that may be nil. *)
Definition fetch (p : option Path) : option (result File) :=
  match p with
  | Some p => Some (unixfs_Get E p)
  | None => unixfs_Get_nil E
  end.

(** *** [Join] *)

Definition Join (chainID : string) : Act (option NetworkInfo * option error) :=
  r ← call (ev_ParsePath (path_Join E ["/ipfs"; chainID; "chainkit.yml"]))
           (iface_ParsePath E (path_Join E ["/ipfs"; chainID; "chainkit.yml"]));
  match r with
  | Err err => mret (None, Some err)
  | Ok manifestPath =>
  _ ← Unixfs;
  r ← call (ev_Get (Some manifestPath)) (unixfs_Get E manifestPath);
  match r with
  | Err err => mret (None, Some err)
  | Ok manifestFile =>
  r ← call (ev_ReadAll manifestFile) (ioutil_ReadAll E manifestFile);
  match r with
  | Err err => mret (None, Some (errors_Wrap err "unable to read genesis file"))
  | Ok manifestData =>
  r ← call (ev_ParsePath (path_Join E ["/ipfs"; chainID; "genesis.json"]))
           (iface_ParsePath E (path_Join E ["/ipfs"; chainID; "genesis.json"]));
  match r with
  | Err err => mret (None, Some err)
  | Ok genesisPath =>
  _ ← Unixfs;
  r ← call (ev_Get (Some genesisPath)) (unixfs_Get E genesisPath);
  match r with
  | Err err => mret (None, Some err)
  | Ok genesisFile =>
  r ← call (ev_ReadAll genesisFile) (ioutil_ReadAll E genesisFile);
  match r with
  | Err err => mret (None, Some (errors_Wrap err "unable to read genesis file"))
  | Ok genesisData =>
  r ← call (ev_ParsePath (path_Join E ["/ipfs"; chainID; "image.tgz"]))
           (iface_ParsePath E (path_Join E ["/ipfs"; chainID; "image.tgz"]));
  (* the error of ParsePath is overwritten by the next assignment *)
  let imagePath := match r with Ok p => Some p | Err _ => None end in
  _ ← Unixfs;
  r ← call_or_panic (ev_Get imagePath) (fetch imagePath);
  match r with
  | Err err => mret (None, Some err)
  | Ok imageFile =>
  mret (Some {| Manifest := manifestData; Genesis := genesisData; Image := imageFile |},
        None)
  end end end end end end end.

(** *** [Publish] *)

(** [os.Link(src, path.Join(sandbox, name))]: on success the directory
    [sandbox] has one more child, [name], with the content of [src]. *)
Definition Link (src sandbox name : string) (dir : gmap string bytes)
  : Act (result (gmap string bytes)) :=
  r ← call (ev_Link src (path_Join E [sandbox; name]))
           (os_Link E src (path_Join E [sandbox; name]));
  match r with
  | Err err => mret (Err err)
  | Ok _ => mret (Ok (<[name := fs_content E src]> dir))
  end.

Definition Publish (manifestPath genesisPath imagePath : string)
  : Act (string * option error) :=
  r ← call ev_TempDir (ioutil_TempDir E);
  match r with
  | Err err => mret ("", Some err)
  | Ok sandbox =>
  r ← call (ev_Stat sandbox) (os_Stat E sandbox);
  match r with
  | Err err => mret ("", Some err)
  | Ok st =>
  r ← Link manifestPath sandbox "chainkit.yml" ∅;
  match r with
  | Err err => mret ("", Some err)
  | Ok dir =>
  r ← Link genesisPath sandbox "genesis.json" dir;
  match r with
  | Err err => mret ("", Some err)
  | Ok dir =>
  r ← Link imagePath sandbox "image.tgz" dir;
  match r with
  | Err err => mret ("", Some err)
  | Ok dir =>
  r ← call (ev_NewSerialFile "network" sandbox)
           (files_NewSerialFile E "network" sandbox false st);
  match r with
  | Err err => mret ("", Some err)
  | Ok _ =>
  let f := SerialDir "network" dir in
  _ ← Unixfs;
  r ← call (ev_Add f) (unixfs_Add E f);
  match r with
  | Err err => mret ("", Some err)
  | Ok p => mret (Cid_String p, None)
  end end end end end end end.

(** *** [Start], [ipfsInit], [Stop] *)

Definition ipfsInit : Act (option error) :=
  s ← get_server;
  r ← call (ev_config_Init nBitsForKeypairDefault)
           (config_Init E nBitsForKeypairDefault);
  match r with
  | Err err => mret (Some err)
  | Ok conf =>
  let conf := {| Identity := Identity conf;
                 Addresses_API := [];
                 Addresses_Gateway := [] |} in
  r ← call (ev_fsrepo_Init (root s) conf) (fsrepo_Init E (root s) conf);
  match r with
  | Err err => mret (Some err)
  | Ok _ => mret None
  end end.

Definition set_node (n : option IpfsNode) (s : Server) : Server :=
  {| root := root s; port := port s; node := n; dht := dht s;
     connectedCh := connectedCh s; api := api s |}.

Definition set_api (a : option CoreAPI) (s : Server) : Server :=
  {| root := root s; port := port s; node := node s; dht := dht s;
     connectedCh := connectedCh s; api := a |}.

Definition set_dht (d : option IpfsDHT) (s : Server) : Server :=
  {| root := root s; port := port s; node := node s; dht := d;
     connectedCh := connectedCh s; api := api s |}.

(** The bootstrap loop: [for _, peerAddr := range bootstrapPeers]. *)
Fixpoint connectAll (peers : list string) : Act unit :=
  match peers with
  | [] => mret tt
  | peerAddr :: rest =>
    r ← call (ev_ParseString peerAddr) (iaddr_ParseString E peerAddr);
    match r with
    | Err _ => panic
    | Ok addr =>
    r ← call (ev_InfoFromP2pAddr (ipfsaddr_Multiaddr addr))
             (pstore_InfoFromP2pAddr E (ipfsaddr_Multiaddr addr));
    match r with
    | Err _ => panic
    | Ok peerinfo =>
    s ← get_server;
    match node s with
    | None => panic
    | Some _ =>
    r ← call (ev_Connect peerinfo) (host_Connect E peerinfo);
    match r with
    | Err err => _ ← emit ev_ui_Error; connectAll rest
    | Ok _ => connectAll rest
    end end end end
  end.

Definition dhtConnect : Act unit :=
  s ← get_server;
  defer (emit (ev_close (connectedCh s)))
        (connectAll bootstrapPeers).

Definition Start : Act (option error) :=
  _ ← emit ev_ui_Info;
  s ← get_server;
  r ← call (ev_LockedByOtherProcess (root s))
           (fsrepo_LockedByOtherProcess E (root s));
  match r with
  | Err err => mret (Some err)
  | Ok daemonLocked =>
  if daemonLocked : bool then mret (Some (ErrAlreadyAccessing (root s))) else
  let plugins := path_Join E [root s; "plugins"] in
  r ← call (ev_LoadPlugins plugins) (loader_LoadPlugins E plugins);
  match r with
  | Err err => mret (Some err)
  | Ok _ =>
  initialized ← call (ev_IsInitialized (root s)) (fsrepo_IsInitialized E (root s));
  ierr ← (if initialized : bool then mret None else ipfsInit);
  match ierr with
  | Some err => mret (Some err)
  | None =>
  r ← call (ev_fsrepo_Open (root s)) (fsrepo_Open E (root s));
  match r with
  | Err err => mret (Some err)
  | Ok repo =>
  _ ← acquire (ResRepo repo);
  let swarm := [ "/ip4/0.0.0.0/tcp/" +:+ pretty (port s);
                 "/ip6/::/tcp/" +:+ pretty (port s) ] in
  r ← call (ev_SetConfigKey "Addresses.Swarm" swarm)
           (repo_SetConfigKey E repo "Addresses.Swarm" swarm);
  match r with
  | Err err => mret (Some err)
  | Ok _ =>
  let cfg := {| Online := true; cfg_Repo := repo |} in
  r ← call (ev_NewNode cfg) (core_NewNode E cfg);
  match r with
  | Err err => _ ← set_server (set_node None s); mret (Some err)
  | Ok n =>
  _ ← acquire (ResNode n);
  let s := set_node (Some n) s in
  _ ← set_server s;
  _ ← emit ev_NewCoreAPI;
  let s := set_api (Some {| api_node := n |}) s in
  _ ← set_server s;
  r ← call ev_dht_New (dht_New E n);
  match r with
  | Err err => _ ← set_server (set_dht None s); mret (Some err)
  | Ok d =>
  let s := set_dht (Some d) s in
  _ ← set_server s;
  _ ← emit (ev_go (events_of dhtConnect s));
  mret None
  end end end end end end end.

(** [return s.node.Close()]: the node is handed to [Close] as it is, nil
    or not. *)
Definition Stop : Act (option error) :=
  s ← get_server;
  r ← call_or_panic (ev_node_Close (node s))
         (match node s with
          | Some n => Some (node_Close E n)
          | None => node_Close_nil E
          end);
  match r with
  | Err err => mret (Some err)
  | Ok _ => mret None
  end.

(** *** [Announce]

    [ev_SetStreamHandler] stands for the registration of the handler that
    encodes [peer] on every inbound stream and closes the stream. *)

Definition Announce (chainID : string) (peer : PeerInfo) : Act (option error) :=
  s ← get_server;
  _ ← emit (ev_recv (connectedCh s));
  r ← call (ev_cid_Decode chainID) (cid_Decode E chainID);
  match r with
  | Err err => mret (Some err)
  | Ok id =>
  match node s with
  | None => panic
  | Some _ =>
  _ ← emit (ev_SetStreamHandler "/chainkit/0.1.0" peer);
  _ ← emit (ev_WithTimeout 10);
  defer (emit ev_cancel)
    (match dht s with
     | None => panic
     | Some _ =>
       r ← call (ev_Provide id true) (dht_Provide E id);
       match r with
       | Err err => mret (Some err)
       | Ok _ => mret None
       end
     end)
  end end.

(** *** [Peers] *)

(** [for _, addr := range p.Addrs]: the ip4 values appended to [peer.IP]. *)
Fixpoint appendIP4 (ips : slice string) (addrs : list Multiaddr) : slice string :=
  match addrs with
  | [] => ips
  | addr :: rest =>
    match ma_ValueForProtocol E addr P_IP4 with
    | Err _ => appendIP4 ips rest
    | Ok v =>
      if decide (v = "") then appendIP4 ips rest
      else appendIP4 (append ips v) rest
    end
  end.

(** What the loop body does to a decoded record before sending it:
    [if peer.IP == nil { peer.IP = []string{} }], then the ip4 values of
    the candidate's addresses are appended. *)
Definition observe (p : Provider) (peer : PeerInfo) : PeerInfo :=
  let peer := if IP peer is None then set_IP peer (Some []) else peer in
  set_IP peer (appendIP4 (IP peer) (Addrs p)).

(** [for p := range peers], sending on [ch]; [self] is
    [s.node.PeerHost.ID()]. *)
Fixpoint rangePeers (self : string) (ch : nat) (peers : list Provider) : Act unit :=
  match peers with
  | [] => mret tt
  | p :: rest =>
    if bool_decide (ID p ≠ self) && bool_decide (0 < length (Addrs p)) then
      r ← call (ev_NewStream (ID p) "/chainkit/0.1.0")
               (host_NewStream E (ID p) "/chainkit/0.1.0");
      match r with
      | Err _ => rangePeers self ch rest
      | Ok stream =>
      r ← call (ev_json_Decode stream) (json_Decode E stream PeerInfo_zero);
      match r with
      | Err _ => _ ← emit ev_ui_Error; rangePeers self ch rest
      | Ok peer =>
      let peer := observe p peer in
      _ ← emit (ev_send ch peer);
      rangePeers self ch rest
      end end
    else rangePeers self ch rest
  end.

(** The goroutine started by [Peers]. *)
Definition peersWorker (id : Cid) (ch : nat) : Act unit :=
  _ ← emit (ev_WithTimeout 10);
  defer (emit ev_cancel)
    (defer (emit (ev_close ch))
       (s ← get_server;
        match dht s with
        | None => panic
        | Some _ =>
        peers ← call (ev_FindProvidersAsync id 10) (dht_FindProvidersAsync E id 10);
        match node s with
        | None => if peers is [] then mret tt else panic
        | Some n => rangePeers (PeerHost_ID n) ch peers
        end end)).

(** [ch] is the channel made by [make(chan *PeerInfo)]. *)
Definition Peers (chainID : string) (ch : nat) : Act (option nat * option error) :=
  s ← get_server;
  _ ← emit (ev_recv (connectedCh s));
  r ← call (ev_cid_Decode chainID) (cid_Decode E chainID);
  match r with
  | Err err => mret (None, Some err)
  | Ok id =>
  _ ← emit (ev_go (events_of (peersWorker id ch) s));
  mret (Some ch, None)
  end.

End Discovery.

(** ** Goroutines and channels

    A running process: the remaining program of every goroutine, the set
    of closed channels, the calls performed so far in their global order,
    and whether a panic has brought the process down.  Channels are
    unbuffered: a send needs a receiver at the same moment; a receive on a
    closed channel returns at once; closing a closed channel and sending
    on a closed channel panic. *)

Record Sys : Type := mkSys {
  pool : list (list Event);
  closed : gset nat;
  log : list Event;
  crashed : bool
}.

(** What the scheduler picks: one goroutine, or a sender and a receiver
    meeting on a channel. *)
Inductive Choice : Type :=
| Solo (i : nat)
| Sync (i j : nat).

(** The goroutine started by an event, and the channel it closes. *)
Definition spawned (e : Event) : list (list Event) :=
  match e with ev_go body => [body] | _ => [] end.

Definition closes (e : Event) : gset nat :=
  match e with ev_close ch => {[ch]} | _ => ∅ end.

(** Events that panic: the end of a panicking goroutine, closing a closed
    channel, sending on a closed channel. *)
Definition panics (cl : gset nat) (e : Event) : bool :=
  match e with
  | ev_crash => true
  | ev_close ch | ev_send ch _ => bool_decide (ch ∈ cl)
  | _ => false
  end.

(** Events a goroutine cannot perform alone: a send, which needs a
    receiver, and a receive on a channel that is still open (nothing is
    ever sent without a receiver at hand). *)
Definition blocked (cl : gset nat) (e : Event) : bool :=
  match e with
  | ev_send _ _ => true
  | ev_recv ch => bool_decide (ch ∉ cl)
  | _ => false
  end.

Definition crash (σ : Sys) : Sys :=
  {| pool := pool σ; closed := closed σ; log := log σ; crashed := true |}.

Definition step (c : Choice) (σ : Sys) : option Sys :=
  if crashed σ then None else
  match c with
  | Solo i =>
    match pool σ !! i with
    | Some (e :: rest) =>
      if panics (closed σ) e then Some (crash σ)
      else if blocked (closed σ) e then None
      else Some {| pool := <[i := rest]> (pool σ) ++ spawned e;
                   closed := closed σ ∪ closes e;
                   log := log σ ++ [e];
                   crashed := false |}
    | _ => None
    end
  | Sync i j =>
    match pool σ !! i, pool σ !! j with
    | Some (ev_send ch v :: ri), Some (ev_recv ch' :: rj) =>
      if decide (i ≠ j ∧ ch = ch' ∧ ch ∉ closed σ) then
        Some {| pool := <[j := rj]> (<[i := ri]> (pool σ)); closed := closed σ;
                log := log σ ++ [ev_send ch v; ev_recv ch]; crashed := false |}
      else None
    | _, _ => None
    end
  end.

(** Run a schedule, choice by choice. *)
Fixpoint exec (sched : list Choice) (σ : Sys) : option Sys :=
  match sched with
  | [] => Some σ
  | c :: rest =>
    match step c σ with
    | Some σ' => exec rest σ'
    | None => None
    end
  end.


(** No goroutine can move. *)
Definition stuck (σ : Sys) : Prop := ∀ c, step c σ = None.

Definition boot (tasks : list (list Event)) : Sys :=
  {| pool := tasks; closed := ∅; log := []; crashed := false |}.

(** ** Classifying events *)

Definition is_Connect (e : Event) : bool :=
  match e with ev_Connect _ => true | _ => false end.

Definition is_dht_call (e : Event) : bool :=
  match e with
  | ev_Provide _ _ | ev_FindProvidersAsync _ _ => true
  | _ => false
  end.


(** Closing [c] or sending on [c]. *)
Definition tampers (c : nat) (e : Event) : bool :=
  match e with
  | ev_close ch | ev_send ch _ => bool_decide (ch = c)
  | _ => false
  end.

(** [P] holds of the event or of an event of a goroutine it starts. *)
Fixpoint occurs (P : Event → bool) (e : Event) : bool :=
  P e || match e with
         | ev_go body => existsb (occurs P) body
         | _ => false
         end.

Definition quiet (P : Event → bool) (t : list Event) : bool :=
  forallb (λ e, negb (occurs P e)) t.

(** No DHT call is made by [t], or started from [t], before [t] has
    received from [c]. *)
Fixpoint guarded (c : nat) (t : list Event) : bool :=
  match t with
  | [] => true
  | e :: rest =>
    match e with
    | ev_recv ch => if decide (ch = c) then true else guarded c rest
    | _ => negb (occurs is_dht_call e) && guarded c rest
    end
  end.

(** The records sent by a program, in order. *)
Definition sent (t : list Event) : list PeerInfo :=
  omap (λ e, match e with ev_send _ v => Some v | _ => None end) t.

(** ** A small concrete network

    The collaborators of one machine, used to run the package on concrete
    inputs.  [faults] names the calls that fail; [providers] is what the
    DHT yields for a find-providers query. *)

Definition faulty (faults : list string) (tag : string) : bool :=
  bool_decide (tag ∈ faults).

Definition demo_fs_content (src : string) : bytes :=
  if decide (src = "app/chainkit.yml") then [x6d]
  else if decide (src = "app/genesis.json") then [x67]
  else if decide (src = "app/image.tgz") then [x69]
  else [].

Definition demo_Get (faults : list string) (p : Path) : result File :=
  let 'IpfsPath t := p in
  if decide (t = "/ipfs/QmNet/chainkit.yml") then
    if faulty faults "Get manifest" then Err (Cause "no link named chainkit.yml")
    else Ok (FileHandle 1)
  else if decide (t = "/ipfs/QmNet/genesis.json") then
    if faulty faults "Get genesis" then Err (Cause "no link named genesis.json")
    else Ok (FileHandle 2)
  else if decide (t = "/ipfs/QmNet/image.tgz") then
    if faulty faults "Get image" then Err (Cause "no link named image.tgz")
    else Ok (FileHandle 3)
  else Err (Cause "no such content").

Definition demo_ReadAll (faults : list string) (f : File) : result bytes :=
  match f with
  | FileHandle 1 =>
    if faulty faults "ReadAll manifest" then Err (Cause "context deadline exceeded")
    else Ok [x6d]
  | FileHandle 2 =>
    if faulty faults "ReadAll genesis" then Err (Cause "context deadline exceeded")
    else Ok [x67]
  | _ => Ok [x69]
  end.

Definition demo_NewStream (pid : string) : result Stream :=
  if decide (pid = "QmA") then Ok (StreamNo 1)
  else if decide (pid = "QmGarbled") then Ok (StreamNo 2)
  else if decide (pid = "QmMirror") then Ok (StreamNo 3)
  else if decide (pid = "QmB") then Ok (StreamNo 4)
  else Err (Cause "dial failed").

Definition demo_Decode (s : Stream) (into : PeerInfo) : result PeerInfo :=
  match s with
  | StreamNo 1 => Ok {| NodeID := "A"; IP := None; TendermintP2PPort := 26656 |}
  | StreamNo 3 => Ok {| NodeID := "QmLocal"; IP := Some ["10.0.0.9"];
                        TendermintP2PPort := 26656 |}
  | StreamNo 4 => Ok {| NodeID := "B"; IP := Some []; TendermintP2PPort := 26657 |}
  | _ => Err (Cause "invalid character")
  end.

Definition demo_ValueForProtocol (addr : Multiaddr) (code : Z) : result string :=
  let 'MA t := addr in
  if decide (code = P_IP4) then
    if decide (t = "/ip4/10.0.0.7/tcp/4001") then Ok "10.0.0.7"
    else if decide (t = "/ip4/10.0.0.8/tcp/4001") then Ok "10.0.0.8"
    else Err (Cause "protocol not found in multiaddr")
  else Err (Cause "protocol not found in multiaddr").

Definition demoEnv (faults : list string) (providers : list Provider) : Env :=
  {| path_Join := String.concat "/";
     fsrepo_LockedByOtherProcess := λ _,
       if faulty faults "LockedByOtherProcess" then Err (Cause "lock unreadable")
       else Ok (faulty faults "locked");
     loader_LoadPlugins := λ _,
       if faulty faults "LoadPlugins" then Err (Cause "bad plugin") else Ok tt;
     fsrepo_IsInitialized := λ _, negb (faulty faults "first use");
     config_Init := λ _,
       if faulty faults "config.Init" then Err (Cause "no entropy")
       else Ok {| Identity := "QmLocal";
                  Addresses_API := ["/ip4/127.0.0.1/tcp/5001"];
                  Addresses_Gateway := ["/ip4/127.0.0.1/tcp/8080"] |};
     fsrepo_Init := λ _ _,
       if faulty faults "fsrepo.Init" then Err (Cause "read-only file system") else Ok tt;
     fsrepo_Open := λ r,
       if faulty faults "fsrepo.Open" then Err (Cause "repo needs migration")
       else Ok (RepoAt r);
     repo_SetConfigKey := λ _ _ _,
       if faulty faults "SetConfigKey" then Err (Cause "disk full") else Ok tt;
     core_NewNode := λ cfg,
       if faulty faults "NewNode" then Err (Cause "address already in use")
       else Ok {| PeerHost_ID := "QmLocal"; node_Repo := cfg_Repo cfg |};
     dht_New := λ n,
       if faulty faults "dht.New" then Err (Cause "context canceled")
       else Ok {| dht_host := PeerHost_ID n |};
     node_Close := λ _,
       if faulty faults "Close" then Err (Cause "close of closed network") else Ok tt;
     node_Close_nil := None;
     iaddr_ParseString := λ a, Ok {| ipfsaddr_Multiaddr := MA a |};
     pstore_InfoFromP2pAddr := λ m, Ok {| ID := let 'MA t := m in t; Addrs := [m] |};
     host_Connect := λ _,
       if faulty faults "Connect" then Err (Cause "dial backoff") else Ok tt;
     ioutil_TempDir := Ok "/tmp/chainkit-network042";
     os_Stat := λ p, Ok (StatOf p);
     os_Link := λ src _,
       if decide (src = "app/missing") then Err (Cause "no such file or directory")
       else Ok tt;
     fs_content := demo_fs_content;
     files_NewSerialFile := λ _ _ _ _, Ok tt;
     unixfs_Add := λ _, Ok (CidOf "QmNet");
     iface_ParsePath := λ p, Ok (IpfsPath p);
     unixfs_Get := demo_Get faults;
     unixfs_Get_nil :=
       if faulty faults "nil path panics" then None else Some (Err (Cause "invalid path"));
     ioutil_ReadAll := demo_ReadAll faults;
     cid_Decode := λ s,
       if decide (s = "") then Err (Cause "cid too short") else Ok (CidOf s);
     dht_Provide := λ _,
       if faulty faults "Provide" then Err (Cause "context deadline exceeded") else Ok tt;
     dht_FindProvidersAsync := λ _ _, providers;
     host_NewStream := λ pid _, demo_NewStream pid;
     json_Decode := demo_Decode;
     ma_ValueForProtocol := demo_ValueForProtocol |}.

(** A server as [New] makes it, and the same server once [Start] has
    succeeded on the demo machine. *)
Definition demo_server : Server := New "/home/u/.chainkit/ipfs" 4001 0.

Definition demo_node : IpfsNode :=
  {| PeerHost_ID := "QmLocal"; node_Repo := RepoAt "/home/u/.chainkit/ipfs" |}.

Definition demo_online : Server :=
  {| root := "/home/u/.chainkit/ipfs"; port := 4001;
     node := Some demo_node;
     dht := Some {| dht_host := "QmLocal" |};
     connectedCh := 0;
     api := Some {| api_node := demo_node |} |}.

Definition demo_provider (id : string) (addrs : list string) : Provider :=
  {| ID := id; Addrs := MA <$> addrs |}.

(** ** Reading traces *)

Definition add_events (evs : list Event) (w : World) : World :=
  {| server := server w; held := held w; trace := trace w ++ evs |}.

(** The calls one candidate of the provider channel gives rise to: the
    body of the loop of [Peers], candidate by candidate. *)
Definition exchange (E : Env) (self : string) (ch : nat) (p : Provider) : list Event :=
  if bool_decide (ID p ≠ self) && bool_decide (0 < length (Addrs p)) then
    ev_NewStream (ID p) "/chainkit/0.1.0" ::
    match host_NewStream E (ID p) "/chainkit/0.1.0" with
    | Err _ => []
    | Ok stream =>
      ev_json_Decode stream ::
      match json_Decode E stream PeerInfo_zero with
      | Err _ => [ev_ui_Error]
      | Ok peer => [ev_send ch (observe E p peer)]
      end
    end
  else [].

(** The directory handed to the content store by [Add], if any. *)
Definition staged (tr : list Event) : option (gmap string bytes) :=
  head (omap (λ e, match e with
                   | ev_Add (SerialDir _ children) => Some children
                   | _ => None
                   end) tr).

(** The content paths a run asks the resolver to parse. *)
Definition requested (tr : list Event) : list string :=
  omap (λ e, match e with ev_ParsePath p => Some p | _ => None end) tr.

(** The paths a run hands to [Get], nil or not. *)
Definition got (tr : list Event) : list (option Path) :=
  omap (λ e, match e with ev_Get p => Some p | _ => None end) tr.

(** What [ParsePath] leaves in the path variable: nil when it fails. *)
Definition resolved (E : Env) (p : string) : option Path :=
  match iface_ParsePath E p with
  | Ok q => Some q
  | Err _ => None
  end.

(** The three child names of a published network. *)
Definition artifact_names : list string :=
  ["chainkit.yml"; "genesis.json"; "image.tgz"].


(** The calls of the loop of [Peers] sending on [ch], and of the whole
    goroutine. *)
Definition is_loop_event (ch : nat) (e : Event) : bool :=
  match e with
  | ev_WithTimeout _ | ev_FindProvidersAsync _ _ | ev_NewStream _ _
  | ev_json_Decode _ | ev_ui_Error => true
  | ev_send ch' _ => bool_decide (ch' = ch)
  | _ => false
  end.

Definition is_worker_event (ch : nat) (e : Event) : bool :=
  is_loop_event ch e ||
  match e with
  | ev_close ch' => bool_decide (ch' = ch)
  | ev_cancel | ev_crash => true
  | _ => false
  end.

(** The bootstrap address [a] parses to the peer record [info]. *)
Definition resolves (E : Env) (a : string) (info : Provider) : Prop :=
  ∃ addr, iaddr_ParseString E a = Ok addr ∧
          pstore_InfoFromP2pAddr E (ipfsaddr_Multiaddr addr) = Ok info.

(** The goroutines that depend on the DHT: calls of [Announce] and of
    [Peers] on server [s]. *)
Inductive waits_on (E : Env) (s : Server) : list Event → Prop :=
| waits_Announce chainID peer :
    waits_on E s (events_of (Announce E chainID peer) s)
| waits_Peers chainID ch :
    ch ≠ connectedCh s →
    waits_on E s (events_of (Peers E chainID ch) s).

(** A goroutine that neither closes nor sends on [c], connects to no
    bootstrap peer and, as long as [c] is open, makes no DHT call before
    receiving from [c]. *)
Definition ok_task (c : nat) (is_closed : bool) (t : list Event) : bool :=
  quiet (tampers c) t && quiet is_Connect t && (is_closed || guarded c t).







(** The ip4 value the loop of [Peers] takes from one address, if any. *)
Definition ip4_of (E : Env) (addr : Multiaddr) : option string :=
  match ma_ValueForProtocol E addr P_IP4 with
  | Ok v => if decide (v = "") then None else Some v
  | Err _ => None
  end.

(** The record one candidate gives rise to, if any. *)
Definition record_of (E : Env) (self : string) (p : Provider) : option PeerInfo :=
  if bool_decide (ID p ≠ self) && bool_decide (0 < length (Addrs p)) then
    match host_NewStream E (ID p) protocolID with
    | Err _ => None
    | Ok stream =>
      match json_Decode E stream PeerInfo_zero with
      | Err _ => None
      | Ok reply => Some (observe E p reply)
      end
    end
  else None.

(** The content store serves the directory [dir] under the identifier
    [id]: each child can be resolved, fetched and read back. *)
Definition serves (E : Env) (id : string) (dir : gmap string bytes) : Prop :=
  ∀ name content,
    dir !! name = Some content →
    ∃ p f,
      iface_ParsePath E (path_Join E ["/ipfs"; id; name]) = Ok p ∧
      unixfs_Get E p = Ok f ∧
      ioutil_ReadAll E f = Ok content.

(** What resolving, fetching and reading one content path gives. *)
Definition fetched (E : Env) (p : string) : option bytes :=
  match iface_ParsePath E p with
  | Err _ => None
  | Ok pth =>
    match unixfs_Get E pth with
    | Err _ => None
    | Ok f =>
      match ioutil_ReadAll E f with
      | Err _ => None
      | Ok b => Some b
      end
    end
  end.

Definition is_ReadAll (e : Event) : bool :=
  match e with ev_ReadAll _ => true | _ => false end.

Definition is_ui_Error (e : Event) : bool :=
  match e with ev_ui_Error => true | _ => false end.

(** The connection to a bootstrap peer fails. *)
Definition unreachable (E : Env) (info : Provider) : bool :=
  match host_Connect E info with Err _ => true | Ok _ => false end.

(** The demo machine with another resolver of content paths. *)
Definition with_ParsePath (parse : string → result Path) (E : Env) : Env :=
  {| path_Join := path_Join E;
     fsrepo_LockedByOtherProcess := fsrepo_LockedByOtherProcess E;
     loader_LoadPlugins := loader_LoadPlugins E;
     fsrepo_IsInitialized := fsrepo_IsInitialized E;
     config_Init := config_Init E;
     fsrepo_Init := fsrepo_Init E;
     fsrepo_Open := fsrepo_Open E;
     repo_SetConfigKey := repo_SetConfigKey E;
     core_NewNode := core_NewNode E;
     dht_New := dht_New E;
     node_Close := node_Close E;
     node_Close_nil := node_Close_nil E;
     iaddr_ParseString := iaddr_ParseString E;
     pstore_InfoFromP2pAddr := pstore_InfoFromP2pAddr E;
     host_Connect := host_Connect E;
     ioutil_TempDir := ioutil_TempDir E;
     os_Stat := os_Stat E;
     os_Link := os_Link E;
     fs_content := fs_content E;
     files_NewSerialFile := files_NewSerialFile E;
     unixfs_Add := unixfs_Add E;
     iface_ParsePath := parse;
     unixfs_Get := unixfs_Get E;
     unixfs_Get_nil := unixfs_Get_nil E;
     ioutil_ReadAll := ioutil_ReadAll E;
     cid_Decode := cid_Decode E;
     dht_Provide := dht_Provide E;
     dht_FindProvidersAsync := dht_FindProvidersAsync E;
     host_NewStream := host_NewStream E;
     json_Decode := json_Decode E;
     ma_ValueForProtocol := ma_ValueForProtocol E |}.

(** A resolver that rejects the image path. *)
Definition demo_ParsePath_no_image (p : string) : result Path :=
  if decide (p = "/ipfs/QmNet/image.tgz") then Err (Cause "invalid ipfs path")
  else Ok (IpfsPath p).

(** The demo machine with another parser of bootstrap addresses. *)
Definition with_ParseString (parse : string → result IPFSAddr) (E : Env) : Env :=
  {| path_Join := path_Join E;
     fsrepo_LockedByOtherProcess := fsrepo_LockedByOtherProcess E;
     loader_LoadPlugins := loader_LoadPlugins E;
     fsrepo_IsInitialized := fsrepo_IsInitialized E;
     config_Init := config_Init E;
     fsrepo_Init := fsrepo_Init E;
     fsrepo_Open := fsrepo_Open E;
     repo_SetConfigKey := repo_SetConfigKey E;
     core_NewNode := core_NewNode E;
     dht_New := dht_New E;
     node_Close := node_Close E;
     node_Close_nil := node_Close_nil E;
     iaddr_ParseString := parse;
     pstore_InfoFromP2pAddr := pstore_InfoFromP2pAddr E;
     host_Connect := host_Connect E;
     ioutil_TempDir := ioutil_TempDir E;
     os_Stat := os_Stat E;
     os_Link := os_Link E;
     fs_content := fs_content E;
     files_NewSerialFile := files_NewSerialFile E;
     unixfs_Add := unixfs_Add E;
     iface_ParsePath := iface_ParsePath E;
     unixfs_Get := unixfs_Get E;
     unixfs_Get_nil := unixfs_Get_nil E;
     ioutil_ReadAll := ioutil_ReadAll E;
     cid_Decode := cid_Decode E;
     dht_Provide := dht_Provide E;
     dht_FindProvidersAsync := dht_FindProvidersAsync E;
     host_NewStream := host_NewStream E;
     json_Decode := json_Decode E;
     ma_ValueForProtocol := ma_ValueForProtocol E |}.

(** A parser that rejects the third bootstrap address. *)
Definition demo_ParseString_third_bad (a : string) : result IPFSAddr :=
  if decide (a = "/ip4/104.236.76.40/tcp/4001/ipfs/QmSoLV4Bbm51jM9C4gDYZQ9Cy3U6aXMJDAbzgu2fzaDs64")
  then Err (Cause "invalid ipfs address")
  else Ok {| ipfsaddr_Multiaddr := MA a |}.

(** The calls of [Start] up to the opening of the repository, on a root
    that is initialised already and on one that is not. *)
Definition Start_prelude (E : Env) (s : Server) : list Event :=
  [ ev_ui_Info; ev_LockedByOtherProcess (root s);
    ev_LoadPlugins (path_Join E [root s; "plugins"]);
    ev_IsInitialized (root s) ].

(** [a] is performed, and later [b]. *)
Definition happens_before (a b : Event) (tr : list Event) : Prop :=
  ∃ l1 l2 l3, tr = l1 ++ a :: l2 ++ b :: l3.


(** ** Properties of [Join] *)

Ltac unfold_act :=
  unfold call, call_or_panic, Unixfs, emit, acquire, get_server, set_server,
         panic, defer, mbind, Act_bind, mret, Act_ret; simpl.

(** Case analysis on the next collaborator answer of a run. *)
Ltac next_answer :=
  match goal with
  | |- context [match ?r with Ok _ => _ | Err _ => _ end] =>
      lazymatch r with
      | context [match _ with Ok _ => _ | Err _ => _ end] => fail
      | _ => destruct r eqn:?; simpl
      end
  end.

Lemma run_pair {A} (m : Act A) s r :
  fst (run m s) = r → run m s = (r, snd (run m s)).
Proof. destruct (run m s). simpl. by intros ->. Qed.

Section JoinFacts.

Variable E : Env.

(** On a started server, a manifest that is fetched but cannot be read to
    the end is reported under the message of the genesis file, and nothing
    is asked of the genesis file. *)
Lemma Join_manifest_unreadable chainID s a p f err :
  api s = Some a →
  iface_ParsePath E (path_Join E ["/ipfs"; chainID; "chainkit.yml"]) = Ok p →
  unixfs_Get E p = Ok f →
  ioutil_ReadAll E f = Err err →
  run (Join E chainID) s
  = (Some (None, Some (Wrap err "unable to read genesis file")),
     {| server := s; held := [];
        trace := [ ev_ParsePath (path_Join E ["/ipfs"; chainID; "chainkit.yml"]);
                   ev_Get (Some p); ev_ReadAll f ] |}).
Proof.
  intros Ha Hp Hg Hr. unfold run, Join. unfold_act.
  rewrite Hp; simpl. rewrite Ha; simpl. rewrite Hg; simpl. by rewrite Hr.
Qed.

(** On a server without an API, [Join] gets no further than its first
    call: it returns the error of [ParsePath], or panics on the nil
    interface. *)
Lemma Join_without_api chainID s :
  api s = None →
  run (Join E chainID) s
  = (match iface_ParsePath E (path_Join E ["/ipfs"; chainID; "chainkit.yml"]) with
     | Err err => Some (None, Some err)
     | Ok _ => None
     end,
     {| server := s; held := [];
        trace := [ev_ParsePath (path_Join E ["/ipfs"; chainID; "chainkit.yml"])] |}).
Proof.
  intros Ha. unfold run, Join. unfold_act.
  destruct (iface_ParsePath E _); simpl; [|done]. by rewrite Ha.
Qed.

End JoinFacts.

(** C1. [Join] is meant to report an absent or unreadable artifact under
    that artifact's name.  Here [Start] has succeeded, and the manifest of
    network [QmNet] is fetched but cannot be read, everything else being in
    place: [Join] stops after its third call, the read of the manifest,
    returns no [NetworkInfo], and the error is the very one it returns when
    it is the genesis file that cannot be read, under the message of the
    genesis file. *)
Theorem Join_blames_genesis_for_manifest :
  let E := demoEnv ["ReadAll manifest"] [] in
  fst (run (Start E) demo_server) = Some None ∧
  server (snd (run (Start E) demo_server)) = demo_online ∧
  run (Join E "QmNet") demo_online
    = (Some (None, Some (Wrap (Cause "context deadline exceeded")
                              "unable to read genesis file")),
       {| server := demo_online; held := [];
          trace := [ ev_ParsePath "/ipfs/QmNet/chainkit.yml";
                     ev_Get (Some (IpfsPath "/ipfs/QmNet/chainkit.yml"));
                     ev_ReadAll (FileHandle 1) ] |}) ∧
  fst (run (Join (demoEnv ["ReadAll genesis"] []) "QmNet") demo_online)
    = Some (None, Some (Wrap (Cause "context deadline exceeded")
                             "unable to read genesis file")).
Proof. intros E. split_and!; vm_compute; reflexivity. Qed.

(** ** Properties of [Publish] *)

Lemma artifact_names_dom (a b c : bytes) :
  dom (<["image.tgz" := c]> (<["genesis.json" := b]> (<["chainkit.yml" := a]> (∅ : gmap string bytes))))
  = (list_to_set artifact_names : gset string).
Proof. rewrite !dom_insert_L, dom_empty_L. unfold artifact_names. set_solver. Qed.

(** Case analysis on whether the server has an API. *)
Ltac next_api s :=
  match goal with
  | |- context [match api s with Some _ => _ | None => _ end] =>
      destruct (api s) eqn:?; simpl
  end.

(** A successful [Publish] ran on a server with an API and handed the
    content store one directory whose children are the three links it
    made. *)
Lemma Publish_stages E manifestPath genesisPath imagePath s id :
  fst (run (Publish E manifestPath genesisPath imagePath) s) = Some (id, None) →
  ∃ dir c,
    is_Some (api s) ∧
    staged (trace (snd (run (Publish E manifestPath genesisPath imagePath) s))) = Some dir ∧
    unixfs_Add E (SerialDir "network" dir) = Ok c ∧
    id = Cid_String c ∧
    dom dir = list_to_set artifact_names ∧
    dir !! "chainkit.yml" = Some (fs_content E manifestPath) ∧
    dir !! "genesis.json" = Some (fs_content E genesisPath) ∧
    dir !! "image.tgz" = Some (fs_content E imagePath).
Proof.
  unfold run, Publish, Link. unfold_act.
  repeat first [next_answer | next_api s]; intros [=]; subst.
  eexists _, _. split; [by eexists|]. split; [reflexivity|].
  split; [eassumption|]. split; [reflexivity|].
  split; [apply artifact_names_dom|].
  by simplify_map_eq.
Qed.

(** Whatever happens, [Join] asks for no other path than those of the
    three children, in the order manifest, genesis, image, and fetches
    nothing but what it has just resolved. *)
Lemma Join_requests_only E chainID s :
  let children := (λ name, path_Join E ["/ipfs"; chainID; name]) <$> artifact_names in
  requested (trace (snd (run (Join E chainID) s))) `prefix_of` children ∧
  got (trace (snd (run (Join E chainID) s))) `prefix_of` resolved E <$> children.
Proof.
  unfold run, Join, fetch, resolved. unfold_act.
  repeat first [next_answer | next_api s];
    try (destruct (unixfs_Get_nil E) as [[]|]; simpl);
    repeat match goal with H : _ = _ |- _ => rewrite H end;
    split;
    first [ by eexists | by eexists [_] | by eexists [_; _] | by eexists [_; _; _] ].
Qed.

(** A [Join] that returns a [NetworkInfo] has resolved and fetched the
    three children, read the first two, and returns what it read and the
    file fetched last. *)
Lemma Join_requests E chainID s ni :
  fst (run (Join E chainID) s) = Some (Some ni, None) →
  let child name := path_Join E ["/ipfs"; chainID; name] in
  requested (trace (snd (run (Join E chainID) s)))
  = [child "chainkit.yml"; child "genesis.json"; child "image.tgz"] ∧
  got (trace (snd (run (Join E chainID) s)))
  = [ resolved E (child "chainkit.yml"); resolved E (child "genesis.json");
      resolved E (child "image.tgz") ] ∧
  fetched E (child "chainkit.yml") = Some (Manifest ni) ∧
  fetched E (child "genesis.json") = Some (Genesis ni) ∧
  fetch E (resolved E (child "image.tgz")) = Some (Ok (Image ni)).
Proof.
  unfold run, Join, fetch, fetched, resolved. unfold_act.
  repeat first [next_answer | next_api s];
    try (destruct (unixfs_Get_nil E) as [[]|] eqn:?; simpl);
    intros [=]; subst;
    repeat match goal with H : _ = _ |- _ => rewrite H end; done.
Qed.

(** C2 (as amended). Every successful [Publish] stages the three artifacts
    into one directory whose children are named [chainkit.yml],
    [genesis.json] and [image.tgz], each with the content of the file
    published under it, and returns the identifier the content store gives
    that directory.  Those same three names, under the identifier asked
    for, are the only paths [Join] resolves, and what it fetches is what it
    has just resolved, in that order; a [Join] that returns a
    [NetworkInfo] has resolved and fetched all three, and returns the bytes
    read from the first two and the file fetched for the third. *)
Theorem Publish_and_Join_share_child_names E manifestPath genesisPath imagePath s id :
  fst (run (Publish E manifestPath genesisPath imagePath) s) = Some (id, None) →
  ∃ dir c,
    staged (trace (snd (run (Publish E manifestPath genesisPath imagePath) s))) = Some dir ∧
    unixfs_Add E (SerialDir "network" dir) = Ok c ∧
    id = Cid_String c ∧
    dom dir = {[ "chainkit.yml"; "genesis.json"; "image.tgz" ]} ∧
    dir !! "chainkit.yml" = Some (fs_content E manifestPath) ∧
    dir !! "genesis.json" = Some (fs_content E genesisPath) ∧
    dir !! "image.tgz" = Some (fs_content E imagePath) ∧
    ∀ chainID s',
      let child name := path_Join E ["/ipfs"; chainID; name] in
      let tr := trace (snd (run (Join E chainID) s')) in
      requested tr
        `prefix_of` [child "chainkit.yml"; child "genesis.json"; child "image.tgz"] ∧
      got tr
        `prefix_of` [ resolved E (child "chainkit.yml"); resolved E (child "genesis.json");
                      resolved E (child "image.tgz") ] ∧
      (∀ ni, fst (run (Join E chainID) s') = Some (Some ni, None) →
         requested tr = [child "chainkit.yml"; child "genesis.json"; child "image.tgz"] ∧
         got tr = [ resolved E (child "chainkit.yml"); resolved E (child "genesis.json");
                    resolved E (child "image.tgz") ] ∧
         fetched E (child "chainkit.yml") = Some (Manifest ni) ∧
         fetched E (child "genesis.json") = Some (Genesis ni) ∧
         fetch E (resolved E (child "image.tgz")) = Some (Ok (Image ni))).
Proof.
  intros Hok.
  destruct (Publish_stages _ _ _ _ _ _ Hok)
    as (dir & c & _ & Hst & Hadd & Hid & Hdom & H1 & H2 & H3).
  exists dir, c. repeat (split; [done|]).
  intros chainID s' child tr.
  destruct (Join_requests_only E chainID s') as [Hreq Hgot].
  split; [exact Hreq|]. split; [exact Hgot|].
  intros ni Hni. by apply (Join_requests E chainID s' ni).
Qed.

Lemma Publish_and_Join_share_child_names_witness :
  let E := demoEnv [] [] in
  ∃ dir c,
    staged (trace (snd (run (Publish E "app/chainkit.yml" "app/genesis.json"
                               "app/image.tgz") demo_online)))
      = Some dir ∧
    unixfs_Add E (SerialDir "network" dir) = Ok c ∧
    "QmNet" = Cid_String c ∧
    dom dir = {[ "chainkit.yml"; "genesis.json"; "image.tgz" ]} ∧
    dir !! "chainkit.yml" = Some [x6d] ∧
    dir !! "genesis.json" = Some [x67] ∧
    dir !! "image.tgz" = Some [x69] ∧
    got (trace (snd (run (Join E "QmNet") demo_online)))
    = [ Some (IpfsPath "/ipfs/QmNet/chainkit.yml");
        Some (IpfsPath "/ipfs/QmNet/genesis.json");
        Some (IpfsPath "/ipfs/QmNet/image.tgz") ].
Proof.
  intros E.
  destruct (Publish_and_Join_share_child_names E
              "app/chainkit.yml" "app/genesis.json" "app/image.tgz"
              demo_online "QmNet" eq_refl)
    as (dir & c & H1 & H2 & H3 & H4 & H5 & H6 & H7 & HJ).
  exists dir, c. repeat (split; [assumption|]).
  destruct (HJ "QmNet" demo_online) as (_ & _ & Hni).
  exact (proj1 (proj2 (Hni {| Manifest := [x6d]; Genesis := [x67];
                              Image := FileHandle 3 |} eq_refl))).
Defined.

(** C2, as first stated, asks for the child names [manifest], [genesis] and
    [image]: the directory staged by a successful [Publish], on the server
    a successful [Start] leaves, has none of them. *)
Lemma Publish_children_are_not_the_spec_names :
  server (snd (run (Start (demoEnv [] [])) demo_server)) = demo_online ∧
  fst (run (Publish (demoEnv [] []) "app/chainkit.yml" "app/genesis.json"
              "app/image.tgz") demo_online) = Some ("QmNet", None) ∧
  ∃ dir,
    staged (trace (snd (run (Publish (demoEnv [] []) "app/chainkit.yml"
                               "app/genesis.json" "app/image.tgz") demo_online)))
      = Some dir ∧
    dom dir ≠ {[ "manifest"; "genesis"; "image" ]} ∧
    dir !! "manifest" = None ∧ dir !! "genesis" = None ∧ dir !! "image" = None.
Proof.
  split; [vm_compute; reflexivity|]. split; [reflexivity|].
  destruct (Publish_stages (demoEnv [] []) "app/chainkit.yml" "app/genesis.json"
              "app/image.tgz" demo_online "QmNet" eq_refl)
    as (dir & c & _ & Hst & _ & _ & Hdom & _).
  exists dir. split; [exact Hst|].
  assert (Hnot : ∀ n, n ∉ artifact_names → dir !! n = None).
  { intros n Hn. apply not_elem_of_dom. rewrite Hdom. set_solver. }
  split.
  - rewrite Hdom. intros Heq.
    assert (Hin : "manifest" ∈ (list_to_set artifact_names : gset string)).
    { rewrite Heq. set_solver. }
    apply elem_of_list_to_set in Hin. unfold artifact_names in Hin.
    set_solver.
  - repeat split; apply Hnot; unfold artifact_names;
      rewrite !not_elem_of_cons; repeat split;
      first [discriminate | apply not_elem_of_nil].
Qed.

(** ** Properties of [Start] *)

(** An event is not among finitely many listed ones of other shapes. *)
Ltac absent_from_trace :=
  let H := fresh in
  intros H;
  repeat (apply elem_of_cons in H as [H|H]; [discriminate H|]);
  by apply elem_of_nil in H.

(** What a failed [Start] leaves behind, by the call it failed at. *)
Lemma Start_failure_state E s err w' :
  run (Start E) s = (Some (Some err), w') →
  ∃ e, last (trace w') = Some e ∧
    match e with
    | ev_LockedByOtherProcess _ | ev_LoadPlugins _ | ev_config_Init _
    | ev_fsrepo_Init _ _ | ev_fsrepo_Open _ =>
        held w' = [] ∧ server w' = s
    | ev_SetConfigKey key value =>
        ∃ repo, fsrepo_Open E (root s) = Ok repo ∧
                repo_SetConfigKey E repo key value = Err err ∧
                held w' = [ResRepo repo] ∧
                server w' = s
    | ev_NewNode cfg =>
        ∃ repo, fsrepo_Open E (root s) = Ok repo ∧
                cfg = {| Online := true; cfg_Repo := repo |} ∧
                core_NewNode E cfg = Err err ∧
                held w' = [ResRepo repo] ∧
                server w' = set_node None s
    | ev_dht_New =>
        ∃ repo n, fsrepo_Open E (root s) = Ok repo ∧
                  core_NewNode E {| Online := true; cfg_Repo := repo |} = Ok n ∧
                  dht_New E n = Err err ∧
                  held w' = [ResRepo repo; ResNode n] ∧
                  server w' = set_dht None (set_api (Some {| api_node := n |})
                                              (set_node (Some n) s))
    | _ => False
    end.
Proof.
  unfold run, Start, ipfsInit. unfold_act.
  repeat first
    [ next_answer
    | match goal with
      | |- context [if ?b then _ else _] => destruct b eqn:?; simpl
      end ];
    intros [=]; subst; simpl;
    (eexists; split; [reflexivity|]); simpl; eauto 10.
Qed.




(** ** Properties of [Announce] *)

(** C6. A call of [Announce] that returns no error has performed, in this
    order: the wait on the readiness channel, the decoding of the
    identifier, the registration of the stream handler on
    [/chainkit/0.1.0], and then, under a ten-second timeout, the one
    [Provide] call; so the registration happens before [Provide], and no
    DHT call happens before it. *)
Theorem Announce_registers_handler_before_Provide E s chainID peer :
  fst (run (Announce E chainID peer) s) = Some None →
  ∃ id,
    cid_Decode E chainID = Ok id ∧
    trace (snd (run (Announce E chainID peer) s))
      = [ ev_recv (connectedCh s); ev_cid_Decode chainID;
          ev_SetStreamHandler protocolID peer; ev_WithTimeout 10;
          ev_Provide id true; ev_cancel ] ∧
    happens_before (ev_SetStreamHandler protocolID peer) (ev_Provide id true)
      (trace (snd (run (Announce E chainID peer) s))) ∧
    ∀ l1 e l2,
      trace (snd (run (Announce E chainID peer) s)) = l1 ++ e :: l2 →
      is_dht_call e = true →
      ev_SetStreamHandler protocolID peer ∈ l1.
Proof.
  unfold run, Announce. unfold_act.
  destruct (cid_Decode E chainID) as [id|err] eqn:Hid; simpl; [|intros [=]].
  destruct (node s) as [n|]; simpl; [|intros [=]].
  destruct (dht s) as [d|]; simpl; [|intros [=]].
  destruct (dht_Provide E id) as [[]|err] eqn:Hp; simpl; [|intros [=]].
  intros _. exists id. split; [done|]. split; [done|]. split.
  - by exists [ev_recv (connectedCh s); ev_cid_Decode chainID], [ev_WithTimeout 10], [ev_cancel].
  - intros l1 e l2 Heq Hdht.
    repeat (destruct l1 as [|? l1]; simplify_eq/=;
            try (rewrite !elem_of_cons; by eauto 10)).
Qed.

Lemma Announce_registers_handler_before_Provide_witness :
  ∃ id,
    cid_Decode (demoEnv [] []) "QmNet" = Ok id ∧
    trace (snd (run (Announce (demoEnv [] []) "QmNet" PeerInfo_zero) demo_online))
      = [ ev_recv 0; ev_cid_Decode "QmNet";
          ev_SetStreamHandler protocolID PeerInfo_zero; ev_WithTimeout 10;
          ev_Provide id true; ev_cancel ].
Proof.
  destruct (Announce_registers_handler_before_Provide (demoEnv [] []) demo_online
              "QmNet" PeerInfo_zero eq_refl) as (id & H1 & H2 & _).
  exists id. split; assumption.
Defined.

(** ** Properties of the loop of [Peers] *)

Lemma add_events_nil w : add_events [] w = w.
Proof. destruct w. unfold add_events. simpl. by rewrite app_nil_r. Qed.

Lemma add_events_app l1 l2 w :
  add_events l2 (add_events l1 w) = add_events (l1 ++ l2) w.
Proof. unfold add_events. simpl. by rewrite app_assoc. Qed.

(** The loop never panics and performs, candidate after candidate, the
    calls of [exchange]. *)
Lemma rangePeers_run E self ch peers w :
  rangePeers E self ch peers w
  = (Some tt, add_events (flat_map (exchange E self ch) peers) w).
Proof.
  revert w. induction peers as [|p rest IH]; intros w.
  - simpl. by rewrite add_events_nil.
  - simpl. unfold exchange at 1.
    destruct (bool_decide (ID p ≠ self) && bool_decide (0 < length (Addrs p))).
    + unfold_act.
      destruct (host_NewStream E (ID p) "/chainkit/0.1.0") as [stream|err]; simpl.
      * destruct (json_Decode E stream PeerInfo_zero) as [peer|err]; simpl;
          rewrite IH; unfold add_events; simpl;
          by rewrite <- !app_assoc.
      * rewrite IH. unfold add_events. simpl.
        by rewrite <- !app_assoc.
    + by rewrite IH.
Qed.

Lemma sent_app l1 l2 : sent (l1 ++ l2) = sent l1 ++ sent l2.
Proof. unfold sent. apply omap_app. Qed.

Lemma sent_flat_map {A} (f : A → list Event) (l : list A) :
  sent (flat_map f l) = flat_map (λ a, sent (f a)) l.
Proof.
  induction l as [|a l IH]; [done|]. simpl. by rewrite sent_app, IH.
Qed.

(** What one candidate contributes to the output sequence. *)
Lemma sent_exchange E self ch p :
  sent (exchange E self ch p)
  = if bool_decide (ID p ≠ self) && bool_decide (0 < length (Addrs p)) then
      match host_NewStream E (ID p) protocolID with
      | Err _ => []
      | Ok stream =>
        match json_Decode E stream PeerInfo_zero with
        | Err _ => []
        | Ok peer => [observe E p peer]
        end
      end
    else [].
Proof.
  unfold exchange, protocolID.
  destruct (bool_decide (ID p ≠ self) && bool_decide (0 < length (Addrs p))); [|done].
  destruct (host_NewStream E (ID p) "/chainkit/0.1.0") as [stream|err]; [|done].
  by destruct (json_Decode E stream PeerInfo_zero).
Qed.

Lemma appendIP4_Some E l addrs : ∃ l', appendIP4 E (Some l) addrs = Some l'.
Proof.
  revert l. induction addrs as [|a addrs IH]; intros l; simpl; [by eauto|].
  destruct (ma_ValueForProtocol E a P_IP4) as [v|]; [|done].
  destruct (decide (v = "")); [done|]. apply IH.
Qed.

Lemma observe_NodeID E p peer : NodeID (observe E p peer) = NodeID peer.
Proof. unfold observe. by destruct (IP peer). Qed.

Lemma observe_IP_not_nil E p peer : ∃ l, IP (observe E p peer) = Some l.
Proof.
  unfold observe. destruct (IP peer) as [l|] eqn:Hip; simpl.
  - rewrite Hip. apply appendIP4_Some.
  - apply appendIP4_Some.
Qed.

(** The program of the goroutine of [Peers] on a started server. *)
Lemma peersWorker_events E s id ch n d :
  node s = Some n → dht s = Some d →
  events_of (peersWorker E id ch) s
  = [ev_WithTimeout 10; ev_FindProvidersAsync id 10]
    ++ flat_map (exchange E (PeerHost_ID n) ch) (dht_FindProvidersAsync E id 10)
    ++ [ev_close ch; ev_cancel].
Proof.
  intros Hn Hd. unfold events_of, run, peersWorker. unfold_act.
  rewrite Hd, Hn. simpl. rewrite rangePeers_run. simpl.
  by rewrite <- !app_assoc.
Qed.

Lemma sent_exchange_inv E self ch p v :
  v ∈ sent (exchange E self ch p) →
  ID p ≠ self ∧ Addrs p ≠ [] ∧
  ∃ stream reply,
    host_NewStream E (ID p) protocolID = Ok stream ∧
    json_Decode E stream PeerInfo_zero = Ok reply ∧
    v = observe E p reply.
Proof.
  rewrite sent_exchange.
  destruct (bool_decide (ID p ≠ self) && bool_decide (0 < length (Addrs p))) eqn:Hc;
    [|by intros ?%elem_of_nil].
  apply andb_true_iff in Hc as [Hid%bool_decide_eq_true Hlen%bool_decide_eq_true].
  destruct (host_NewStream E (ID p) protocolID) as [stream|] eqn:Hs;
    [|by intros ?%elem_of_nil].
  destruct (json_Decode E stream PeerInfo_zero) as [reply|] eqn:Hd;
    [|by intros ?%elem_of_nil].
  intros ->%list_elem_of_singleton. split; [done|]. split.
  - intros Hnil. rewrite Hnil in Hlen. simpl in Hlen. lia.
  - eauto.
Qed.



(** Every record sent by the goroutine of [Peers] is the reply of a
    candidate yielded by the DHT, as [observe] completes it. *)
Lemma peersWorker_sent E s id ch v :
  v ∈ sent (events_of (peersWorker E id ch) s) →
  ∃ n p, node s = Some n ∧ p ∈ dht_FindProvidersAsync E id 10 ∧
         v ∈ sent (exchange E (PeerHost_ID n) ch p).
Proof.
  destruct (dht s) as [d|] eqn:Hd.
  - destruct (node s) as [n|] eqn:Hn.
    + rewrite (peersWorker_events E s id ch n d) by done.
      rewrite !sent_app, sent_flat_map. simpl.
      rewrite app_nil_r. intros (p & Hp & Hv)%list_elem_of_In%in_flat_map.
      exists n, p. by rewrite !list_elem_of_In.
    + unfold events_of, run, peersWorker. unfold_act. rewrite Hd, Hn. simpl.
      destruct (dht_FindProvidersAsync E id 10); simpl; by intros ?%elem_of_nil.
  - unfold events_of, run, peersWorker. unfold_act. rewrite Hd. simpl.
    by intros ?%elem_of_nil.
Qed.

(** C10. A candidate whose provider record has no address is skipped,
    whether or not it is the local node: at any position of the provider
    sequence the loop runs as if the candidate were not there, and on that
    candidate alone it performs no call and sends nothing. *)
Theorem Peers_skips_candidates_without_addresses E self ch l1 p l2 w :
  Addrs p = [] →
  rangePeers E self ch (l1 ++ p :: l2) w = rangePeers E self ch (l1 ++ l2) w ∧
  rangePeers E self ch [p] w = (Some tt, w) ∧
  trace (snd (rangePeers E self ch [p] w)) = trace w.
Proof.
  intros Hnil.
  assert (Hex : exchange E self ch p = []).
  { unfold exchange. rewrite Hnil. simpl. by rewrite andb_false_r. }
  assert (Hone : rangePeers E self ch [p] w = (Some tt, w)).
  { rewrite rangePeers_run. simpl. by rewrite Hex, add_events_nil. }
  split.
  - rewrite !rangePeers_run, !flat_map_app. simpl. by rewrite Hex.
  - split; [done|]. by rewrite Hone.
Qed.

Lemma Peers_skips_candidates_without_addresses_witness :
  let E := demoEnv [] [] in
  let w := {| server := demo_online; held := []; trace := [] |} in
  let a := demo_provider "QmA" ["/ip4/10.0.0.7/tcp/4001"] in
  let b := demo_provider "QmB" [] in
  ID b ≠ "QmLocal" ∧
  rangePeers E "QmLocal" 1 ([a] ++ b :: [a]) w = rangePeers E "QmLocal" 1 ([a] ++ [a]) w ∧
  rangePeers E "QmLocal" 1 [b] w = (Some tt, w).
Proof.
  intros E w a b. split; [discriminate|].
  destruct (Peers_skips_candidates_without_addresses E "QmLocal" 1 [a] b [a] w eq_refl)
    as (H1 & H2 & _).
  split; assumption.
Defined.

(** C9. Every record sent by the goroutine of [Peers] has a non-nil IP
    list.  When the decoded reply has a nil list (the reply omitted the
    field or gave null for it), the record sent carries the empty list
    extended with the ip4 values observed for the candidate. *)
Theorem Peers_sends_non_nil_IP E s id ch :
  (∀ v, v ∈ sent (events_of (peersWorker E id ch) s) → ∃ l, IP v = Some l) ∧
  (∀ p reply, IP reply = None →
     IP (observe E p reply) = appendIP4 E (Some []) (Addrs p) ∧
     ∃ l, appendIP4 E (Some []) (Addrs p) = Some l).
Proof.
  split.
  - intros v (n & p & _ & _ & Hv)%peersWorker_sent.
    apply sent_exchange_inv in Hv as (_ & _ & stream & reply & _ & _ & ->).
    apply observe_IP_not_nil.
  - intros p reply Hnil. split; [|apply appendIP4_Some].
    unfold observe. by rewrite Hnil.
Qed.

Lemma Peers_sends_non_nil_IP_witness :
  let E := demoEnv [] [demo_provider "QmA" ["/ip4/10.0.0.7/tcp/4001"]] in
  sent (events_of (peersWorker E (CidOf "QmNet") 1) demo_online)
    = [{| NodeID := "A"; IP := Some ["10.0.0.7"]; TendermintP2PPort := 26656 |}] ∧
  ∃ l, IP {| NodeID := "A"; IP := Some ["10.0.0.7"]; TendermintP2PPort := 26656 |}
       = Some l.
Proof.
  intros E. split; [reflexivity|].
  apply (proj1 (Peers_sends_non_nil_IP E demo_online (CidOf "QmNet") 1)).
  vm_compute. apply list_elem_of_singleton. reflexivity.
Defined.

(** C4 (as amended). The goroutine of [Peers] opens no stream to a
    candidate whose provider identity is the local node's, so every record
    it sends is the reply of a candidate whose provider identity differs
    from the local one; the [NodeID] of the record is the one the reply
    carries. *)
Theorem Peers_never_exchanges_with_itself E s id ch :
  (∀ n proto, node s = Some n →
     ev_NewStream (PeerHost_ID n) proto ∉ events_of (peersWorker E id ch) s) ∧
  (∀ v, v ∈ sent (events_of (peersWorker E id ch) s) →
     ∃ n p stream reply,
       node s = Some n ∧
       p ∈ dht_FindProvidersAsync E id 10 ∧
       ID p ≠ PeerHost_ID n ∧
       host_NewStream E (ID p) protocolID = Ok stream ∧
       json_Decode E stream PeerInfo_zero = Ok reply ∧
       v = observe E p reply ∧
       NodeID v = NodeID reply).
Proof.
  split.
  - intros n proto Hn.
    assert (Hex : ∀ p, ev_NewStream (PeerHost_ID n) proto ∉ exchange E (PeerHost_ID n) ch p).
    { intros p. unfold exchange.
      destruct (bool_decide (ID p ≠ PeerHost_ID n)) eqn:Hid; simpl; [|apply not_elem_of_nil].
      apply bool_decide_eq_true in Hid.
      destruct (bool_decide (0 < length (Addrs p))); [|apply not_elem_of_nil].
      intros [Heq|Hin]%elem_of_cons; [congruence|].
      destruct (host_NewStream E (ID p) "/chainkit/0.1.0") as [stream|];
        [|by apply elem_of_nil in Hin].
      apply elem_of_cons in Hin as [?|Hin]; [done|].
      destruct (json_Decode E stream PeerInfo_zero);
        apply list_elem_of_singleton in Hin; discriminate. }
    destruct (dht s) as [d|] eqn:Hd.
    + rewrite (peersWorker_events E s id ch n d) by done.
      rewrite !elem_of_app. intros [Hin|[Hin|Hin]].
      * repeat (apply elem_of_cons in Hin as [?|Hin]; [done|]). by apply elem_of_nil in Hin.
      * apply list_elem_of_In, in_flat_map in Hin as (p & _ & Hin).
        by apply list_elem_of_In, Hex in Hin.
      * repeat (apply elem_of_cons in Hin as [?|Hin]; [done|]). by apply elem_of_nil in Hin.
    + unfold events_of, run, peersWorker. unfold_act. rewrite Hd. simpl.
      intros Hin.
      repeat (apply elem_of_cons in Hin as [?|Hin]; [done|]). by apply elem_of_nil in Hin.
  - intros v (n & p & Hn & Hp & Hv)%peersWorker_sent.
    apply sent_exchange_inv in Hv as (Hid & _ & stream & reply & Hs & Hd & ->).
    exists n, p, stream, reply. repeat (split; [done|]). apply observe_NodeID.
Qed.

Lemma Peers_never_exchanges_with_itself_witness :
  let E := demoEnv [] [ demo_provider "QmLocal" ["/ip4/10.0.0.7/tcp/4001"];
                        demo_provider "QmA" ["/ip4/10.0.0.7/tcp/4001"] ] in
  node demo_online = Some demo_node ∧
  (ev_NewStream "QmLocal" protocolID
     ∉ events_of (peersWorker E (CidOf "QmNet") 1) demo_online) ∧
  sent (events_of (peersWorker E (CidOf "QmNet") 1) demo_online)
    = [{| NodeID := "A"; IP := Some ["10.0.0.7"]; TendermintP2PPort := 26656 |}].
Proof.
  intros E. split; [reflexivity|]. split; [|reflexivity].
  exact (proj1 (Peers_never_exchanges_with_itself E demo_online (CidOf "QmNet") 1)
           demo_node protocolID eq_refl).
Defined.

(** C4, as first stated, wants the [NodeID] of every record sent to differ
    from the local identity.  A candidate with another provider identity
    whose reply carries the local identity as [node_id] has that reply
    sent on. *)
Lemma Peers_sends_a_reply_naming_the_local_node :
  let E := demoEnv [] [demo_provider "QmMirror" ["/ip4/10.0.0.8/tcp/4001"]] in
  let v := {| NodeID := "QmLocal"; IP := Some ["10.0.0.9"; "10.0.0.8"];
              TendermintP2PPort := 26656 |} in
  node demo_online = Some demo_node ∧
  v ∈ sent (events_of (peersWorker E (CidOf "QmNet") 1) demo_online) ∧
  NodeID v = PeerHost_ID demo_node.
Proof.
  intros E v. split; [reflexivity|]. split; [|reflexivity].
  vm_compute. apply list_elem_of_singleton. reflexivity.
Qed.

(** ** Goroutines: one step at a time *)



Lemma quiet_cons P e t :
  quiet P (e :: t) = true ↔ occurs P e = false ∧ quiet P t = true.
Proof. unfold quiet. simpl. rewrite andb_true_iff, negb_true_iff. done. Qed.











(** ** The bootstrap program *)





(** ** The programs of the waiters *)

Lemma exchange_loop_events E self ch p :
  forallb (is_loop_event ch) (exchange E self ch p) = true.
Proof.
  unfold exchange. destruct (_ && _); [|done]. simpl.
  destruct (host_NewStream E (ID p) "/chainkit/0.1.0") as [stream|]; [|done]. simpl.
  destruct (json_Decode E stream PeerInfo_zero); simpl; [|done].
  by rewrite bool_decide_eq_true_2.
Qed.

Lemma forallb_flat_map {A B} (f : B → bool) (g : A → list B) l :
  (∀ a, forallb f (g a) = true) → forallb f (flat_map g l) = true.
Proof.
  intros Hg. induction l as [|a l IH]; [done|]. simpl.
  by rewrite forallb_app, Hg, IH.
Qed.

Lemma forallb_impl {A} (f g : A → bool) l :
  (∀ a, f a = true → g a = true) → forallb f l = true → forallb g l = true.
Proof.
  intros Hfg. induction l as [|a l IH]; [done|]. simpl.
  intros [Ha Hl]%andb_true_iff. by rewrite (Hfg a Ha), IH.
Qed.

Lemma loop_event_worker ch e : is_loop_event ch e = true → is_worker_event ch e = true.
Proof. unfold is_worker_event. by intros ->. Qed.

Lemma peersWorker_worker_events E s id ch :
  forallb (is_worker_event ch) (events_of (peersWorker E id ch) s) = true.
Proof.
  destruct (dht s) as [d|] eqn:Hd.
  - destruct (node s) as [n|] eqn:Hn.
    + rewrite (peersWorker_events E s id ch n d) by done.
      rewrite !forallb_app. simpl.
      rewrite (forallb_impl _ _ _ (loop_event_worker ch)
                 (forallb_flat_map _ _ _ (exchange_loop_events E (PeerHost_ID n) ch))).
      unfold is_worker_event. simpl. by rewrite bool_decide_eq_true_2.
    + unfold events_of, run, peersWorker. unfold_act. rewrite Hd, Hn. simpl.
      destruct (dht_FindProvidersAsync E id 10); simpl;
        unfold is_worker_event; simpl; by rewrite bool_decide_eq_true_2.
  - unfold events_of, run, peersWorker. unfold_act. rewrite Hd. simpl.
    unfold is_worker_event. simpl. by rewrite bool_decide_eq_true_2.
Qed.

Lemma worker_event_quiet ch c e :
  ch ≠ c → is_worker_event ch e = true →
  occurs (tampers c) e = false ∧ occurs is_Connect e = false.
Proof.
  intros Hne. unfold is_worker_event.
  destruct e; simpl; try done; rewrite ?orb_false_r;
    intros ->%bool_decide_eq_true; by rewrite bool_decide_eq_false_2.
Qed.

Lemma quiet_existsb P t : quiet P t = true → existsb (occurs P) t = false.
Proof.
  induction t as [|e t IH]; [done|]. intros [He Ht]%quiet_cons.
  simpl. by rewrite He, IH.
Qed.

Lemma worker_quiet ch c t :
  ch ≠ c → forallb (is_worker_event ch) t = true →
  quiet (tampers c) t = true ∧ quiet is_Connect t = true.
Proof.
  intros Hne. induction t as [|e t IH]; [done|]. simpl.
  intros [He Ht]%andb_true_iff. destruct (IH Ht) as [IH1 IH2].
  destruct (worker_event_quiet ch c e Hne He) as [H1 H2].
  split; apply quiet_cons; done.
Qed.

(** A call of [Announce] or of [Peers] first receives from the readiness
    channel; it makes no DHT call and starts no goroutine before that, and
    it never closes that channel, sends on it or connects to a bootstrap
    peer. *)
Lemma waits_on_ok E s t :
  waits_on E s t →
  ok_task (connectedCh s) false t = true ∧
  ∃ t', t = ev_recv (connectedCh s) :: t'.
Proof.
  intros [chainID peer|chainID ch Hch].
  - unfold events_of, run, Announce. unfold_act.
    destruct (cid_Decode E chainID) as [id|]; simpl;
      [|split; [|by eexists]; unfold ok_task; simpl; by rewrite decide_True].
    destruct (node s); simpl;
      [|split; [|by eexists]; unfold ok_task; simpl; by rewrite decide_True].
    destruct (dht s); simpl;
      [|split; [|by eexists]; unfold ok_task; simpl; by rewrite decide_True].
    destruct (dht_Provide E id); simpl;
      (split; [|by eexists]); unfold ok_task; simpl; by rewrite decide_True.
  - unfold events_of at 1. unfold run, Peers. unfold_act.
    destruct (cid_Decode E chainID) as [id|]; simpl;
      [|split; [|by eexists]; unfold ok_task; simpl; by rewrite decide_True].
    split; [|by eexists].
    destruct (worker_quiet ch (connectedCh s) _ Hch (peersWorker_worker_events E s id ch))
      as [H1 H2].
    unfold ok_task, quiet. simpl.
    rewrite (quiet_existsb _ _ H1), (quiet_existsb _ _ H2). simpl.
    by rewrite decide_True.
Qed.






(** ** A call of [Peers], its goroutine and its consumer *)













(** The records of the goroutine of [Peers], candidate by candidate. *)
Lemma sent_exchange_record E self ch p :
  sent (exchange E self ch p) = option_list (record_of E self p).
Proof.
  rewrite sent_exchange. unfold record_of.
  destruct (_ && _); [|done].
  destruct (host_NewStream E (ID p) protocolID) as [stream|]; [|done].
  by destruct (json_Decode E stream PeerInfo_zero).
Qed.









(** * Further properties *)

(** ** [Start] and [Stop] *)

(** X1. When another process holds the repository, [Start] returns the
    "already accessing" error having done nothing but the lock check: no
    plugin is loaded, nothing is initialised or opened, the server is left
    as it was.  An error of the lock check itself is returned in the same
    way. *)
Theorem Start_refuses_locked_root E s :
  (fsrepo_LockedByOtherProcess E (root s) = Ok true →
   run (Start E) s
   = (Some (Some (ErrAlreadyAccessing (root s))),
      {| server := s; held := [];
         trace := [ev_ui_Info; ev_LockedByOtherProcess (root s)] |})) ∧
  (∀ err, fsrepo_LockedByOtherProcess E (root s) = Err err →
   run (Start E) s
   = (Some (Some err),
      {| server := s; held := [];
         trace := [ev_ui_Info; ev_LockedByOtherProcess (root s)] |})).
Proof.
  split; [intros H|intros err H]; unfold run, Start; unfold_act; by rewrite H.
Qed.

Lemma Start_refuses_locked_root_witness :
  run (Start (demoEnv ["locked"] [])) demo_server
  = (Some (Some (ErrAlreadyAccessing "/home/u/.chainkit/ipfs")),
     {| server := demo_server; held := [];
        trace := [ev_ui_Info; ev_LockedByOtherProcess "/home/u/.chainkit/ipfs"] |}).
Proof.
  exact (proj1 (Start_refuses_locked_root (demoEnv ["locked"] []) demo_server) eq_refl).
Defined.

(** X2. On a root that is not initialised yet, [Start] creates a
    configuration with a 4096-bit key, empties its API and gateway address
    lists and initialises the repository with it, all before the
    repository is opened; a failure of either step is returned and the
    repository is not opened.  On an initialised root neither call is
    made. *)
Theorem Start_initialises_on_first_use E s :
  fsrepo_LockedByOtherProcess E (root s) = Ok false →
  loader_LoadPlugins E (path_Join E [root s; "plugins"]) = Ok tt →
  (fsrepo_IsInitialized E (root s) = true →
   ∃ rest, trace (snd (run (Start E) s))
           = Start_prelude E s ++ ev_fsrepo_Open (root s) :: rest) ∧
  (fsrepo_IsInitialized E (root s) = false →
   (∀ err, config_Init E 4096 = Err err →
      run (Start E) s
      = (Some (Some err),
         {| server := s; held := [];
            trace := Start_prelude E s ++ [ev_config_Init 4096] |})) ∧
   (∀ conf, config_Init E 4096 = Ok conf →
      let conf' := {| Identity := Identity conf; Addresses_API := [];
                      Addresses_Gateway := [] |} in
      (∀ err, fsrepo_Init E (root s) conf' = Err err →
         run (Start E) s
         = (Some (Some err),
            {| server := s; held := [];
               trace := Start_prelude E s
                        ++ [ev_config_Init 4096; ev_fsrepo_Init (root s) conf'] |})) ∧
      (fsrepo_Init E (root s) conf' = Ok tt →
         ∃ rest, trace (snd (run (Start E) s))
                 = Start_prelude E s
                   ++ [ev_config_Init 4096; ev_fsrepo_Init (root s) conf';
                       ev_fsrepo_Open (root s)] ++ rest))).
Proof.
  intros Hlock Hplug. unfold Start_prelude. split.
  { intros Hinit. unfold run, Start, ipfsInit. unfold_act.
    rewrite Hlock; simpl. rewrite Hplug; simpl. rewrite Hinit; simpl.
    repeat next_answer; by eexists. }
  intros H. split.
  - intros err Hc. unfold run, Start, ipfsInit. unfold_act.
    rewrite Hlock; simpl. rewrite Hplug; simpl. rewrite H; simpl.
    unfold nBitsForKeypairDefault. by rewrite Hc.
  - intros conf Hc. cbv zeta. split.
    + intros err Hi. unfold run, Start, ipfsInit. unfold_act.
      rewrite Hlock; simpl. rewrite Hplug; simpl. rewrite H; simpl.
      unfold nBitsForKeypairDefault. rewrite Hc; simpl. by rewrite Hi.
    + intros Hi. unfold run, Start, ipfsInit. unfold_act.
      rewrite Hlock; simpl. rewrite Hplug; simpl. rewrite H; simpl.
      unfold nBitsForKeypairDefault. rewrite Hc; simpl. rewrite Hi; simpl.
      repeat next_answer; by eexists.
Qed.

Lemma Start_initialises_on_first_use_witness :
  ∃ rest,
    trace (snd (run (Start (demoEnv ["first use"] [])) demo_server))
    = Start_prelude (demoEnv ["first use"] []) demo_server
      ++ [ ev_config_Init 4096;
           ev_fsrepo_Init "/home/u/.chainkit/ipfs"
             {| Identity := "QmLocal"; Addresses_API := []; Addresses_Gateway := [] |};
           ev_fsrepo_Open "/home/u/.chainkit/ipfs" ] ++ rest.
Proof.
  destruct (Start_initialises_on_first_use (demoEnv ["first use"] []) demo_server
              eq_refl eq_refl) as [_ H].
  destruct (H eq_refl) as [_ H2].
  exact (proj2 (H2 _ eq_refl) eq_refl).
Defined.

(** What a successful [Start] has done. *)
Lemma Start_success_state E s w' :
  run (Start E) s = (Some None, w') →
  ∃ repo n d init,
    fsrepo_Open E (root s) = Ok repo ∧
    core_NewNode E {| Online := true; cfg_Repo := repo |} = Ok n ∧
    dht_New E n = Ok d ∧
    server w' = {| root := root s; port := port s; node := Some n; dht := Some d;
                   connectedCh := connectedCh s; api := Some {| api_node := n |} |} ∧
    held w' = [ResRepo repo; ResNode n] ∧
    (init = [] ∨ ∃ conf, init = [ev_config_Init 4096; ev_fsrepo_Init (root s) conf]) ∧
    trace w'
    = Start_prelude E s ++ init
      ++ [ ev_fsrepo_Open (root s);
           ev_SetConfigKey "Addresses.Swarm"
             [ "/ip4/0.0.0.0/tcp/" +:+ pretty (port s);
               "/ip6/::/tcp/" +:+ pretty (port s) ];
           ev_NewNode {| Online := true; cfg_Repo := repo |};
           ev_NewCoreAPI; ev_dht_New;
           ev_go (events_of (dhtConnect E) (server w')) ].
Proof.
  unfold run, Start, ipfsInit, Start_prelude, nBitsForKeypairDefault. unfold_act.
  repeat first
    [ next_answer
    | match goal with
      | |- context [if ?b then _ else _] => destruct b eqn:?; simpl
      end ];
    intros [=]; subst; simpl;
    eexists _, _, _;
    first [ exists []; split_and!; try first [eassumption|reflexivity]; by left
          | eexists [_; _]; split_and!; try first [eassumption|reflexivity];
            right; by eexists ].
Qed.


(** X3. A [Start] that returns no error has opened the repository, set its
    swarm addresses to the IPv4 and IPv6 wildcard addresses on the server's
    port, built an online node on it, and stored the node, its API and its
    DHT in the server; it holds the repository and the node.  Its last
    act, and its only [go], is to launch the bootstrap program of the
    server as it then is: [Start] itself never waits on the readiness
    channel. *)
Theorem Start_success E s w' :
  run (Start E) s = (Some None, w') →
  ∃ repo n d init,
    fsrepo_Open E (root s) = Ok repo ∧
    core_NewNode E {| Online := true; cfg_Repo := repo |} = Ok n ∧
    dht_New E n = Ok d ∧
    server w' = {| root := root s; port := port s; node := Some n; dht := Some d;
                   connectedCh := connectedCh s; api := Some {| api_node := n |} |} ∧
    held w' = [ResRepo repo; ResNode n] ∧
    (init = [] ∨ ∃ conf, init = [ev_config_Init 4096; ev_fsrepo_Init (root s) conf]) ∧
    trace w'
    = Start_prelude E s ++ init
      ++ [ ev_fsrepo_Open (root s);
           ev_SetConfigKey "Addresses.Swarm"
             [ "/ip4/0.0.0.0/tcp/" +:+ pretty (port s);
               "/ip6/::/tcp/" +:+ pretty (port s) ];
           ev_NewNode {| Online := true; cfg_Repo := repo |};
           ev_NewCoreAPI; ev_dht_New;
           ev_go (events_of (dhtConnect E) (server w')) ].
Proof. apply Start_success_state. Qed.

Lemma Start_success_witness :
  ∃ repo n d,
    held (snd (run (Start (demoEnv [] [])) demo_server)) = [ResRepo repo; ResNode n] ∧
    server (snd (run (Start (demoEnv [] [])) demo_server))
    = {| root := "/home/u/.chainkit/ipfs"; port := 4001; node := Some n; dht := Some d;
         connectedCh := 0; api := Some {| api_node := n |} |} ∧
    last (trace (snd (run (Start (demoEnv [] [])) demo_server)))
    = Some (ev_go (events_of (dhtConnect (demoEnv [] []))
                     (server (snd (run (Start (demoEnv [] [])) demo_server))))).
Proof.
  destruct (Start_success (demoEnv [] []) demo_server _
              (run_pair (Start (demoEnv [] [])) demo_server (Some None) eq_refl))
    as (repo & n & d & init & _ & _ & _ & Hs & Hh & _ & Ht).
  exists repo, n, d. split; [exact Hh|]. split; [exact Hs|].
  rewrite Ht, !last_app. reflexivity.
Defined.

(** What [Stop] does, whatever the server holds. *)
Lemma Stop_run E w :
  Stop E w
  = (error_of <$> match node (server w) with
                  | Some n => Some (node_Close E n)
                  | None => node_Close_nil E
                  end,
     add_events [ev_node_Close (node (server w))] w).
Proof.
  unfold Stop. unfold_act. unfold add_events.
  destruct (node (server w)) as [n|]; simpl.
  - by destruct (node_Close E n).
  - by destruct (node_Close_nil E) as [[]|].
Qed.

(** X4. [Stop] is no remedy for a failed [Start].  On a server made by
    [New], when [Start] failed at [dht.New] the node it built is stored in
    the server and on the ledger, and [Stop] hands that node to [Close] and
    returns the answer.  When [Start] failed at any earlier call the server
    has no node: [Stop] hands [Close] the nil node, and returns or panics
    as [Close] does on nil; what [Start] had opened is left as it is. *)
Theorem Stop_after_failed_Start E s err w' :
  node s = None →
  run (Start E) s = (Some (Some err), w') →
  ∃ e, last (trace w') = Some e ∧
    match e with
    | ev_dht_New =>
        ∃ n, dht_New E n = Err err ∧
             node (server w') = Some n ∧
             ResNode n ∈ held w' ∧
             Stop E w' = (Some (error_of (node_Close E n)),
                          add_events [ev_node_Close (Some n)] w')
    | _ =>
        node (server w') = None ∧
        Stop E w' = (error_of <$> node_Close_nil E,
                     add_events [ev_node_Close None] w')
    end.
Proof.
  intros Hnode Hrun.
  destruct (Start_failure_state E s err w' Hrun)
    as (e & He & Hcase).
  exists e. split; [exact He|]. rewrite Stop_run.
  destruct e; try done; simpl in Hcase.
  all: try (destruct Hcase as [_ ->]; rewrite Hnode; by split).
  - destruct Hcase as (repo & _ & _ & _ & ->). rewrite Hnode. by split.
  - destruct Hcase as (repo & _ & _ & _ & _ & ->). simpl. by split.
  - destruct Hcase as (repo & n & _ & _ & Hd & -> & ->). simpl.
    exists n. split; [done|]. split; [done|]. split; [|done].
    rewrite !elem_of_cons. auto.
Qed.

Lemma Stop_after_failed_Start_witness :
  let E := demoEnv ["SetConfigKey"] [] in
  let w' := snd (run (Start E) demo_server) in
  fst (run (Start E) demo_server) = Some (Some (Cause "disk full")) ∧
  held w' = [ResRepo (RepoAt "/home/u/.chainkit/ipfs")] ∧
  Stop E w' = (None, add_events [ev_node_Close None] w').
Proof.
  intros E w'. split; [reflexivity|]. split; [reflexivity|].
  destruct (Stop_after_failed_Start E demo_server (Cause "disk full") w' eq_refl
              (run_pair (Start E) demo_server _ eq_refl))
    as (e & He & Hcase).
  assert (Hlast : last (trace w')
                  = Some (ev_SetConfigKey "Addresses.Swarm"
                            ["/ip4/0.0.0.0/tcp/4001"; "/ip6/::/tcp/4001"]))
    by reflexivity.
  rewrite Hlast in He. injection He as <-.
  exact (proj2 Hcase).
Defined.

(** X5. After a [Start] that returned no error, [Stop] hands the node
    [Start] stored to [Close], once, and returns what [Close] returns.  It
    leaves the fields of the server as they are, so a second [Stop] hands
    the same node to [Close] again. *)
Theorem Stop_after_Start E s w1 :
  run (Start E) s = (Some None, w1) →
  ∃ n w2 w3,
    node (server w1) = Some n ∧
    Stop E w1 = (Some (error_of (node_Close E n)), w2) ∧
    trace w2 = trace w1 ++ [ev_node_Close (Some n)] ∧
    server w2 = server w1 ∧
    Stop E w2 = (Some (error_of (node_Close E n)), w3) ∧
    trace w3 = trace w1 ++ [ev_node_Close (Some n); ev_node_Close (Some n)].
Proof.
  intros Hrun.
  destruct (Start_success_state E s w1 Hrun)
    as (repo & n & d & init & Hopen & _ & _ & Hs & Hh & _ & _).
  assert (Hn : node (server w1) = Some n) by (by rewrite Hs).
  rewrite (Stop_run E w1), Hn.
  eexists n, _, _. split; [done|]. split; [reflexivity|].
  split; [done|]. split; [done|].
  rewrite Stop_run. cbn [server add_events trace]. rewrite Hn.
  split; [reflexivity|]. simpl. by rewrite <- app_assoc.
Qed.

Lemma Stop_after_Start_witness :
  let E := demoEnv ["Close"] [] in
  ∃ w2 w3,
    node (server (snd (run (Start E) demo_server))) = Some demo_node ∧
    Stop E (snd (run (Start E) demo_server))
    = (Some (Some (Cause "close of closed network")), w2) ∧
    server w2 = demo_online ∧
    Stop E w2 = (Some (Some (Cause "close of closed network")), w3).
Proof.
  intros E.
  destruct (Stop_after_Start E demo_server _
              (run_pair (Start E) demo_server (Some None) eq_refl))
    as (n & w2 & w3 & Hn & H1 & _ & Hs & H2 & _).
  assert (Hnode : n = demo_node) by (injection Hn as <-; reflexivity).
  subst n. exists w2, w3.
  split; [exact Hn|]. split; [exact H1|]. split; [|exact H2].
  rewrite Hs. reflexivity.
Defined.

(** ** [Announce] *)

(** X6. [Announce] leaves the server as it is and holds nothing.  When the
    identifier does not decode it returns that error having registered no
    handler and made no DHT call.  Whenever it has created the timeout
    context it cancels it as its last act, also when [Provide] fails, and
    the error of [Provide] is returned as it is, the handler staying
    registered. *)
Theorem Announce_error_paths E s chainID peer :
  let r := run (Announce E chainID peer) s in
  server (snd r) = s ∧ held (snd r) = [] ∧
  (∀ err, cid_Decode E chainID = Err err →
     r = (Some (Some err),
          {| server := s; held := [];
             trace := [ev_recv (connectedCh s); ev_cid_Decode chainID] |})) ∧
  (ev_WithTimeout 10 ∈ trace (snd r) → last (trace (snd r)) = Some ev_cancel) ∧
  (∀ id err n d,
     cid_Decode E chainID = Ok id → node s = Some n → dht s = Some d →
     dht_Provide E id = Err err →
     r = (Some (Some err),
          {| server := s; held := [];
             trace := [ ev_recv (connectedCh s); ev_cid_Decode chainID;
                        ev_SetStreamHandler protocolID peer; ev_WithTimeout 10;
                        ev_Provide id true; ev_cancel ] |})).
Proof.
  unfold run, Announce. unfold_act. split_and!.
  - destruct (cid_Decode E chainID) as [id|]; simpl; [|done].
    destruct (node s); simpl; [|done]. destruct (dht s); simpl; [|done].
    by destruct (dht_Provide E id).
  - destruct (cid_Decode E chainID) as [id|]; simpl; [|done].
    destruct (node s); simpl; [|done]. destruct (dht s); simpl; [|done].
    by destruct (dht_Provide E id).
  - by intros err ->.
  - destruct (cid_Decode E chainID) as [id|]; simpl; [|absent_from_trace].
    destruct (node s); simpl; [|absent_from_trace]. destruct (dht s); simpl; [|done].
    by destruct (dht_Provide E id).
  - intros id err n d -> -> ->. simpl. by intros ->.
Qed.

Lemma Announce_error_paths_witness :
  run (Announce (demoEnv ["Provide"] []) "QmNet" PeerInfo_zero) demo_online
  = (Some (Some (Cause "context deadline exceeded")),
     {| server := demo_online; held := [];
        trace := [ ev_recv 0; ev_cid_Decode "QmNet";
                   ev_SetStreamHandler protocolID PeerInfo_zero; ev_WithTimeout 10;
                   ev_Provide (CidOf "QmNet") true; ev_cancel ] |}).
Proof.
  destruct (Announce_error_paths (demoEnv ["Provide"] []) demo_online "QmNet" PeerInfo_zero)
    as (_ & _ & _ & _ & H).
  exact (H (CidOf "QmNet") (Cause "context deadline exceeded") demo_node
           {| dht_host := "QmLocal" |} eq_refl eq_refl eq_refl eq_refl).
Defined.

(** ** The records of [Peers] *)

Lemma appendIP4_closed E l addrs :
  appendIP4 E (Some l) addrs = Some (l ++ omap (ip4_of E) addrs).
Proof.
  revert l. induction addrs as [|a addrs IH]; intros l; simpl.
  - by rewrite app_nil_r.
  - unfold ip4_of at 1.
    destruct (ma_ValueForProtocol E a P_IP4) as [v|]; [|apply IH].
    destruct (decide (v = "")); [apply IH|].
    unfold append. simpl. rewrite IH. by rewrite <- app_assoc.
Qed.

(** X7. The record sent for a candidate is the reply with its [NodeID] and
    its port untouched and with an IP list made of the IPs of the reply, in
    their order, followed by the non-empty ip4 values of the candidate's
    addresses, in their order; nothing is removed, not even a value the
    reply had already. *)
Theorem observe_closed_form E p reply :
  observe E p reply
  = {| NodeID := NodeID reply;
       IP := Some (slice_elems (IP reply) ++ omap (ip4_of E) (Addrs p));
       TendermintP2PPort := TendermintP2PPort reply |}.
Proof.
  unfold observe, set_IP. destruct reply as [nid [ips|] prt]; simpl;
    by rewrite appendIP4_closed.
Qed.

(** X8. On a started server the records the goroutine of [Peers] sends
    are, in the order in which the DHT yields the candidates, the records
    of the candidates that have one: at most one for each candidate, none
    twice, none out of order. *)
Theorem Peers_sends_in_provider_order E s n d id ch :
  node s = Some n → dht s = Some d →
  sent (events_of (peersWorker E id ch) s)
  = omap (record_of E (PeerHost_ID n)) (dht_FindProvidersAsync E id 10).
Proof.
  intros Hn Hd. rewrite (peersWorker_events E s id ch n d) by done.
  rewrite !sent_app, sent_flat_map. unfold sent at 1 3. simpl. rewrite app_nil_r.
  induction (dht_FindProvidersAsync E id 10) as [|p l IH]; [done|]. simpl.
  rewrite IH, sent_exchange_record. by destruct (record_of E (PeerHost_ID n) p).
Qed.

Lemma Peers_sends_in_provider_order_witness :
  let E := demoEnv [] [ demo_provider "QmB" ["/ip4/10.0.0.8/tcp/4001"];
                        demo_provider "QmGarbled" ["/ip4/10.0.0.8/tcp/4001"];
                        demo_provider "QmA" ["/ip4/10.0.0.7/tcp/4001"] ] in
  sent (events_of (peersWorker E (CidOf "QmNet") 1) demo_online)
  = [ {| NodeID := "B"; IP := Some ["10.0.0.8"]; TendermintP2PPort := 26657 |};
      {| NodeID := "A"; IP := Some ["10.0.0.7"]; TendermintP2PPort := 26656 |} ].
Proof.
  intros E.
  rewrite (Peers_sends_in_provider_order E demo_online demo_node
             {| dht_host := "QmLocal" |} (CidOf "QmNet") 1 eq_refl eq_refl).
  reflexivity.
Defined.

(** ** [Join] and [Publish] *)

(** X9. On a server with an API, [Join] works through the three children
    in order and stops at the first that cannot be resolved, fetched or
    (for the first two) read: it asks for the genesis path only once the
    manifest has been read, and for the image path only once the genesis
    has been read.  A [Join] that returns a [NetworkInfo] returns the
    bytes read for the manifest and for the genesis; it has read those two
    files only, and the image is the file of its last call, the fetch,
    handed over unread. *)
Theorem Join_is_sequential E chainID s :
  is_Some (api s) →
  let r := run (Join E chainID) s in
  let child name := path_Join E ["/ipfs"; chainID; name] in
  requested (trace (snd r))
  = child "chainkit.yml" ::
    match fetched E (child "chainkit.yml") with
    | None => []
    | Some _ =>
      child "genesis.json" ::
      match fetched E (child "genesis.json") with
      | None => []
      | Some _ => [child "image.tgz"]
      end
    end ∧
  (length (List.filter is_ReadAll (trace (snd r))) ≤ 2)%nat ∧
  ∀ ni, fst r = Some (Some ni, None) →
    fetched E (child "chainkit.yml") = Some (Manifest ni) ∧
    fetched E (child "genesis.json") = Some (Genesis ni) ∧
    length (List.filter is_ReadAll (trace (snd r))) = 2%nat ∧
    ∃ p, last (trace (snd r)) = Some (ev_Get p) ∧ fetch E p = Some (Ok (Image ni)).
Proof.
  intros [a Ha]. destruct s as [rt pt nd dh ch ap]. simpl in Ha. subst ap.
  unfold run, Join, fetched, fetch. unfold_act.
  repeat next_answer;
    try (destruct (unixfs_Get_nil E) as [[]|] eqn:?; simpl);
    (split; [reflexivity|]); (split; [simpl; lia|]);
    intros ni [=]; subst; simpl; split_and!; try reflexivity;
    (eexists; split; [reflexivity|]); simpl; congruence.
Qed.

Lemma Join_is_sequential_witness :
  requested (trace (snd (run (Join (demoEnv ["Get genesis"] []) "QmNet") demo_online)))
  = ["/ipfs/QmNet/chainkit.yml"; "/ipfs/QmNet/genesis.json"] ∧
  fetched (demoEnv [] []) "/ipfs/QmNet/chainkit.yml" = Some [x6d] ∧
  fetched (demoEnv [] []) "/ipfs/QmNet/genesis.json" = Some [x67].
Proof.
  assert (Ha : is_Some (api demo_online)) by (by eexists).
  split.
  - exact (proj1 (Join_is_sequential (demoEnv ["Get genesis"] []) "QmNet" demo_online Ha)).
  - destruct (Join_is_sequential (demoEnv [] []) "QmNet" demo_online Ha) as (_ & _ & H).
    destruct (H {| Manifest := [x6d]; Genesis := [x67]; Image := FileHandle 3 |} eq_refl)
      as (H1 & H2 & _).
    split; [exact H1|exact H2].
Defined.

(** X10. The error of parsing the image path is never looked at.  On a
    server with an API, once the manifest and the genesis have been read,
    a failure to parse the image path makes [Join] hand [Get] the nil
    path as its last call, and the outcome of that call is the outcome of
    [Join]: its file, its error, or its panic. *)
Theorem Join_drops_image_path_error E chainID s mb gb err :
  is_Some (api s) →
  let child name := path_Join E ["/ipfs"; chainID; name] in
  fetched E (child "chainkit.yml") = Some mb →
  fetched E (child "genesis.json") = Some gb →
  iface_ParsePath E (child "image.tgz") = Err err →
  last (trace (snd (run (Join E chainID) s))) = Some (ev_Get None) ∧
  fst (run (Join E chainID) s)
  = match unixfs_Get_nil E with
    | None => None
    | Some (Ok f) => Some (Some {| Manifest := mb; Genesis := gb; Image := f |}, None)
    | Some (Err e) => Some (None, Some e)
    end.
Proof.
  intros [a Ha] child. destruct s as [rt pt nd dh ch ap]. simpl in Ha. subst ap.
  unfold child, fetched, run, Join, fetch. unfold_act.
  repeat next_answer; intros [=] [=] [=]; subst; simpl;
    by destruct (unixfs_Get_nil E) as [[]|].
Qed.

Lemma Join_drops_image_path_error_witness :
  let E := with_ParsePath demo_ParsePath_no_image (demoEnv [] []) in
  iface_ParsePath E "/ipfs/QmNet/image.tgz" = Err (Cause "invalid ipfs path") ∧
  last (trace (snd (run (Join E "QmNet") demo_online))) = Some (ev_Get None) ∧
  fst (run (Join E "QmNet") demo_online) = Some (None, Some (Cause "invalid path")).
Proof.
  intros E. split; [reflexivity|].
  assert (Ha : is_Some (api demo_online)) by (by eexists).
  exact (Join_drops_image_path_error E "QmNet" demo_online [x6d] [x67]
           (Cause "invalid ipfs path") Ha eq_refl eq_refl eq_refl).
Defined.

(** X11. On a server with an API [Publish] never panics; without one it
    panics on the nil interface, and only once the directory has been
    assembled and read, its last call, with nothing handed to the content
    store.  A [Publish] that returns an error returns the empty identifier
    with it: either nothing was handed to the content store, or the store
    itself refused the complete directory.  When one of the three links
    fails, the directory is not read and nothing is submitted. *)
Theorem Publish_failure_submits_nothing E manifestPath genesisPath imagePath s :
  let r := run (Publish E manifestPath genesisPath imagePath) s in
  (is_Some (api s) → is_Some (fst r)) ∧
  (fst r = None →
     api s = None ∧
     staged (trace (snd r)) = None ∧
     ∃ sandbox, ioutil_TempDir E = Ok sandbox ∧
                last (trace (snd r)) = Some (ev_NewSerialFile "network" sandbox)) ∧
  (∀ id err, fst r = Some (id, Some err) →
     id = "" ∧
     (staged (trace (snd r)) = None ∨
      ∃ dir, staged (trace (snd r)) = Some dir ∧
             dom dir = {[ "chainkit.yml"; "genesis.json"; "image.tgz" ]} ∧
             unixfs_Add E (SerialDir "network" dir) = Err err)) ∧
  (∀ sandbox st src name err,
     ioutil_TempDir E = Ok sandbox →
     os_Stat E sandbox = Ok st →
     (src, name) ∈ [ (manifestPath, "chainkit.yml"); (genesisPath, "genesis.json");
                     (imagePath, "image.tgz") ] →
     os_Link E src (path_Join E [sandbox; name]) = Err err →
     (∃ e, fst r = Some ("", Some e)) ∧
     staged (trace (snd r)) = None ∧
     ∀ n d, ev_NewSerialFile n d ∉ trace (snd r)).
Proof.
  unfold run, Publish, Link. unfold_act. split_and!.
  - intros [a Ha]. repeat first [next_answer | next_api s];
      first [discriminate Ha | by eexists].
  - repeat first [next_answer | next_api s]; intros [=];
      (split; [done|]); (split; [done|]); by eexists.
  - intros id err.
    repeat first [next_answer | next_api s]; intros [=]; subst; (split; [done|]);
      first [ by left
            | right; eexists; split; [reflexivity|]; split; [|eassumption];
              rewrite !dom_insert_L, dom_empty_L; set_solver ].
  - intros sandbox st src name err -> -> Hin Hlink. simpl.
    rewrite !elem_of_cons, elem_of_nil in Hin.
    destruct Hin as [[= -> ->]|[[= -> ->]|[[= -> ->]|[]]]];
      repeat next_answer; try congruence;
      (split; [by eexists|]); (split; [done|]); intros n d; absent_from_trace.
Qed.

Lemma Publish_failure_submits_nothing_witness :
  let E := demoEnv [] [] in
  let r := run (Publish E "app/chainkit.yml" "app/genesis.json" "app/image.tgz")
               demo_server in
  fst r = None ∧
  api demo_server = None ∧
  staged (trace (snd r)) = None ∧
  ∃ sandbox, ioutil_TempDir E = Ok sandbox ∧
             last (trace (snd r)) = Some (ev_NewSerialFile "network" sandbox).
Proof.
  intros E r. split; [reflexivity|].
  destruct (Publish_failure_submits_nothing E "app/chainkit.yml" "app/genesis.json"
              "app/image.tgz" demo_server) as (_ & H & _).
  exact (H eq_refl).
Defined.

(** X12. Publish, then join.  When the content store serves the directory
    it accepted under the identifier it gave, joining the identifier
    returned by a successful [Publish], on a server with an API, succeeds
    and gives back the bytes of the published manifest and genesis files,
    and an image file that reads back as the published image. *)
Theorem Publish_then_Join E manifestPath genesisPath imagePath s s' id :
  fst (run (Publish E manifestPath genesisPath imagePath) s) = Some (id, None) →
  (∀ dir, staged (trace (snd (run (Publish E manifestPath genesisPath imagePath) s)))
          = Some dir → serves E id dir) →
  is_Some (api s') →
  ∃ ni,
    fst (run (Join E id) s') = Some (Some ni, None) ∧
    Manifest ni = fs_content E manifestPath ∧
    Genesis ni = fs_content E genesisPath ∧
    ioutil_ReadAll E (Image ni) = Ok (fs_content E imagePath).
Proof.
  intros Hpub Hserves [a Ha].
  destruct (Publish_stages _ _ _ _ _ _ Hpub)
    as (dir & c & _ & Hst & _ & _ & _ & Hm & Hg & Hi).
  specialize (Hserves dir Hst).
  destruct (Hserves _ _ Hm) as (pm & fm & Hpm & Hfm & Hrm).
  destruct (Hserves _ _ Hg) as (pg & fg & Hpg & Hfg & Hrg).
  destruct (Hserves _ _ Hi) as (pi & fi & Hpi & Hfi & Hri).
  exists {| Manifest := fs_content E manifestPath;
            Genesis := fs_content E genesisPath;
            Image := fi |}.
  split; [|by split_and!].
  destruct s' as [rt pt nd dh ch ap]. simpl in Ha. subst ap.
  unfold run, Join, fetch. unfold_act.
  rewrite Hpm; simpl. rewrite Hfm; simpl. rewrite Hrm; simpl.
  rewrite Hpg; simpl. rewrite Hfg; simpl. rewrite Hrg; simpl.
  rewrite Hpi; simpl. by rewrite Hfi.
Qed.

Lemma Publish_then_Join_witness :
  ∃ ni,
    fst (run (Join (demoEnv [] []) "QmNet") demo_online) = Some (Some ni, None) ∧
    Manifest ni = [x6d] ∧ Genesis ni = [x67] ∧
    ioutil_ReadAll (demoEnv [] []) (Image ni) = Ok [x69].
Proof.
  assert (Ha : is_Some (api demo_online)) by (by eexists).
  apply (Publish_then_Join (demoEnv [] []) "app/chainkit.yml" "app/genesis.json"
           "app/image.tgz" demo_online demo_online "QmNet" eq_refl); [|exact Ha].
  intros dir Hdir.
  destruct (Publish_stages (demoEnv [] []) "app/chainkit.yml" "app/genesis.json"
              "app/image.tgz" demo_online "QmNet" eq_refl)
    as (dir' & c & _ & Hst & _ & _ & Hdom & Hm & Hg & Hi).
  rewrite Hdir in Hst. injection Hst as <-.
  intros name content Hlook.
  assert (Hin : name ∈ dom dir) by (apply elem_of_dom; eauto).
  rewrite Hdom in Hin. apply elem_of_list_to_set in Hin.
  unfold artifact_names in Hin. rewrite !elem_of_cons, elem_of_nil in Hin.
  destruct Hin as [->|[->|[->|[]]]].
  - rewrite Hm in Hlook. injection Hlook as <-.
    by exists (IpfsPath "/ipfs/QmNet/chainkit.yml"), (FileHandle 1).
  - rewrite Hg in Hlook. injection Hlook as <-.
    by exists (IpfsPath "/ipfs/QmNet/genesis.json"), (FileHandle 2).
  - rewrite Hi in Hlook. injection Hlook as <-.
    by exists (IpfsPath "/ipfs/QmNet/image.tgz"), (FileHandle 3).
Defined.

(** X16. [Join] leaves the server as it is and opens nothing.  On a server
    without an API it makes one call, the parsing of the manifest path, and
    then returns the error of that call or panics on the nil interface.
    On a server with an API it returns either a complete [NetworkInfo] with
    no error or an error with no [NetworkInfo], never both and never
    neither, the error being that of the first call that failed, wrapped
    when that call is a read; it panics in one case only, when the image
    path did not parse and [Get] panics on the nil path it is handed. *)
Theorem Join_returns_all_or_nothing E chainID s :
  let r := run (Join E chainID) s in
  let child name := path_Join E ["/ipfs"; chainID; name] in
  server (snd r) = s ∧ held (snd r) = [] ∧
  (api s = None →
     r = (match iface_ParsePath E (child "chainkit.yml") with
          | Err err => Some (None, Some err)
          | Ok _ => None
          end,
          {| server := s; held := [];
             trace := [ev_ParsePath (child "chainkit.yml")] |})) ∧
  (is_Some (api s) →
     (∃ ni, fst r = Some (Some ni, None)) ∨
     (∃ err, fst r = Some (None, Some err) ∧
        ((∃ p, iface_ParsePath E p = Err err) ∨
         (∃ p, fetch E p = Some (Err err)) ∨
         (∃ f cause, ioutil_ReadAll E f = Err cause ∧
                     err = Wrap cause "unable to read genesis file"))) ∨
     (fst r = None ∧
      unixfs_Get_nil E = None ∧
      (∃ err, iface_ParsePath E (child "image.tgz") = Err err) ∧
      last (trace (snd r)) = Some (ev_Get None))).
Proof.
  intros r child. split_and!.
  - unfold r, run, Join. unfold_act.
    repeat first [next_answer | next_api s];
      try (destruct (unixfs_Get_nil E) as [[]|]; simpl); reflexivity.
  - unfold r, run, Join. unfold_act.
    repeat first [next_answer | next_api s];
      try (destruct (unixfs_Get_nil E) as [[]|]; simpl); reflexivity.
  - intros Ha. by apply Join_without_api.
  - intros [a Ha]. destruct s as [rt pt nd dh ch ap]. simpl in Ha. subst ap.
    unfold r, child, run, Join. unfold_act.
    repeat next_answer;
      try (destruct (unixfs_Get_nil E) as [[]|] eqn:Hnil; simpl);
      first [ left; by eexists
            | right; left; eexists; split; [reflexivity|];
              first [ by left; eexists
                    | right; left; by eexists None
                    | right; left; eexists (Some _); simpl; f_equal; eassumption
                    | right; right; by eexists _, _ ]
            | right; right; split; [reflexivity|]; split; [done|];
              split; [by eexists|reflexivity] ].
Qed.

Lemma Join_returns_all_or_nothing_witness :
  run (Join (demoEnv [] []) "QmNet") demo_server
  = (None, {| server := demo_server; held := [];
              trace := [ev_ParsePath "/ipfs/QmNet/chainkit.yml"] |}).
Proof.
  destruct (Join_returns_all_or_nothing (demoEnv [] []) "QmNet" demo_server)
    as (_ & _ & H & _).
  exact (H eq_refl).
Defined.

(** ** The bootstrap loop *)

Lemma connectAll_warnings E peers infos w n :
  node (server w) = Some n →
  Forall2 (resolves E) peers infos →
  ∃ pre, connectAll E peers w = (Some tt, add_events pre w) ∧
         List.filter is_ui_Error pre
         = (λ _, ev_ui_Error) <$> List.filter (unreachable E) infos ∧
         (∀ l1 e l2, pre = l1 ++ e :: l2 → e = ev_ui_Error →
            ∃ l0 info, l1 = l0 ++ [ev_Connect info] ∧ unreachable E info = true).
Proof.
  intros Hn Hres. revert w Hn.
  induction Hres as [|a info peers infos (addr & Ha & Hi) _ IH]; intros w Hn; simpl.
  - exists []. rewrite add_events_nil. split_and!; [done..|].
    intros l1 e l2 Heq. by destruct l1.
  - unfold_act. rewrite Ha. simpl. rewrite Hi. simpl. rewrite Hn. simpl.
    unfold unreachable at 1.
    destruct (host_Connect E info) eqn:Hc; simpl.
    + edestruct IH as (pre & -> & Hpre & Hadj); [done|].
      exists ([ev_ParseString a; ev_InfoFromP2pAddr (ipfsaddr_Multiaddr addr);
               ev_Connect info] ++ pre).
      split_and!.
      * unfold add_events. simpl. by rewrite <- !app_assoc.
      * done.
      * intros l1 e l2 Heq ->.
        do 3 (destruct l1 as [|? l1]; simplify_eq/=).
        destruct (Hadj _ _ _ eq_refl eq_refl) as (l0 & info' & -> & Hu).
        eexists (_ :: _ :: _ :: l0), info'. by split.
    + edestruct IH as (pre & -> & Hpre & Hadj); [done|].
      exists ([ev_ParseString a; ev_InfoFromP2pAddr (ipfsaddr_Multiaddr addr);
               ev_Connect info; ev_ui_Error] ++ pre).
      split_and!.
      * unfold add_events. simpl. by rewrite <- !app_assoc.
      * simpl. by rewrite Hpre.
      * intros l1 e l2 Heq ->.
        do 3 (destruct l1 as [|? l1]; simplify_eq/=).
        destruct l1 as [|? l1]; simplify_eq/=.
        { exists [ev_ParseString a; ev_InfoFromP2pAddr (ipfsaddr_Multiaddr addr)], info.
          split; [done|]. unfold unreachable. by rewrite Hc. }
        destruct (Hadj _ _ _ eq_refl eq_refl) as (l0 & info' & -> & Hu).
        eexists (_ :: _ :: _ :: _ :: l0), info'. by split.
Qed.

(** X13. When the bootstrap addresses parse, the bootstrap program reports
    one warning for each entry whose connection fails and none otherwise,
    and every warning comes right after the failed connection it reports;
    the program then ends, with no panic, on the close of the readiness
    channel. *)
Theorem dhtConnect_warns_once_per_failure E s n infos :
  node s = Some n →
  Forall2 (resolves E) bootstrapPeers infos →
  ∃ pre,
    events_of (dhtConnect E) s = pre ++ [ev_close (connectedCh s)] ∧
    length (List.filter is_ui_Error pre) = length (List.filter (unreachable E) infos) ∧
    ∀ l1 e l2, pre = l1 ++ e :: l2 → e = ev_ui_Error →
      ∃ l0 info, l1 = l0 ++ [ev_Connect info] ∧ unreachable E info = true.
Proof.
  intros Hn Hres.
  unfold events_of, run, dhtConnect, defer, get_server, emit, mbind, Act_bind.
  cbn -[connectAll].
  edestruct (connectAll_warnings E bootstrapPeers infos) as (pre & -> & Hpre & Hadj);
    [exact Hn|exact Hres|].
  exists pre. simpl. rewrite app_nil_r. split; [done|]. split; [|done].
  by rewrite Hpre, length_fmap.
Qed.

Lemma dhtConnect_warns_once_per_failure_witness :
  let E := demoEnv ["Connect"] [] in
  ∃ pre,
    events_of (dhtConnect E) demo_online = pre ++ [ev_close 0] ∧
    length (List.filter is_ui_Error pre) = 5%nat.
Proof.
  intros E.
  destruct (dhtConnect_warns_once_per_failure E demo_online demo_node
              ((λ a, {| ID := a; Addrs := [MA a] |}) <$> bootstrapPeers) eq_refl)
    as (pre & H1 & H2 & _).
  - repeat constructor; by eexists.
  - exists pre. split; [exact H1|]. rewrite H2. reflexivity.
Defined.

Lemma connectAll_panics E l1 a l2 infos1 w n :
  node (server w) = Some n →
  Forall2 (resolves E) l1 infos1 →
  (∀ info, ¬ resolves E a info) →
  ∃ pre, connectAll E (l1 ++ a :: l2) w = (None, add_events pre w) ∧
         List.filter is_Connect pre = ev_Connect <$> infos1.
Proof.
  intros Hn Hres Hbad. revert w Hn.
  induction Hres as [|b info peers infos (addr & Ha & Hi) _ IH]; intros w Hn; simpl.
  - unfold_act. destruct (iaddr_ParseString E a) as [addr|] eqn:Ha; simpl;
      [|by exists [ev_ParseString a]].
    destruct (pstore_InfoFromP2pAddr E (ipfsaddr_Multiaddr addr)) as [info|] eqn:Hi; simpl.
    + destruct (Hbad info). by exists addr.
    + exists [ev_ParseString a; ev_InfoFromP2pAddr (ipfsaddr_Multiaddr addr)].
      split; [|done]. unfold add_events. simpl. by rewrite <- !app_assoc.
  - unfold_act. rewrite Ha. simpl. rewrite Hi. simpl. rewrite Hn. simpl.
    destruct (host_Connect E info); simpl.
    + edestruct IH as (pre & -> & Hcon); [done|].
      exists ([ev_ParseString b; ev_InfoFromP2pAddr (ipfsaddr_Multiaddr addr);
               ev_Connect info] ++ pre).
      split; [|simpl; by rewrite Hcon].
      unfold add_events. simpl. by rewrite <- !app_assoc.
    + edestruct IH as (pre & -> & Hcon); [done|].
      exists ([ev_ParseString b; ev_InfoFromP2pAddr (ipfsaddr_Multiaddr addr);
               ev_Connect info; ev_ui_Error] ++ pre).
      split; [|simpl; by rewrite Hcon].
      unfold add_events. simpl. by rewrite <- !app_assoc.
Qed.

(** X14. The errors of parsing a bootstrap address are discarded.  Were
    one of the entries not to parse, the goroutine would panic at that
    entry: the entries before it are attempted, those after it are not,
    the readiness channel is still closed by the deferred call, and the
    process then goes down. *)
Theorem dhtConnect_panics_on_unparsable_entry E s n l1 a l2 infos1 :
  node s = Some n →
  bootstrapPeers = l1 ++ a :: l2 →
  Forall2 (resolves E) l1 infos1 →
  (∀ info, ¬ resolves E a info) →
  ∃ pre,
    events_of (dhtConnect E) s = pre ++ [ev_close (connectedCh s); ev_crash] ∧
    List.filter is_Connect pre = ev_Connect <$> infos1.
Proof.
  intros Hn Heq Hres Hbad.
  unfold events_of, run, dhtConnect, defer, get_server, emit, mbind, Act_bind.
  cbn -[connectAll bootstrapPeers]. rewrite Heq.
  edestruct (connectAll_panics E l1 a l2 infos1) as (pre & -> & Hcon);
    [exact Hn|exact Hres|exact Hbad|].
  exists pre. simpl. split; [|done]. by rewrite <- app_assoc.
Qed.

Lemma dhtConnect_panics_on_unparsable_entry_witness :
  let E := with_ParseString demo_ParseString_third_bad (demoEnv [] []) in
  ∃ pre,
    events_of (dhtConnect E) demo_online = pre ++ [ev_close 0; ev_crash] ∧
    length (List.filter is_Connect pre) = 2%nat.
Proof.
  intros E.
  destruct (dhtConnect_panics_on_unparsable_entry E demo_online demo_node
              (take 2 bootstrapPeers)
              "/ip4/104.236.76.40/tcp/4001/ipfs/QmSoLV4Bbm51jM9C4gDYZQ9Cy3U6aXMJDAbzgu2fzaDs64"
              (drop 3 bootstrapPeers)
              ((λ a, {| ID := a; Addrs := [MA a] |}) <$> take 2 bootstrapPeers)
              eq_refl eq_refl)
    as (pre & H1 & H2).
  - repeat constructor; by eexists.
  - intros info (addr & Ha & _). discriminate Ha.
  - exists pre. split; [exact H1|]. rewrite H2. reflexivity.
Defined.

(** ** Waiting without a bootstrap *)

(** X15. On a server whose bootstrap task was never launched (no [Start],
    or a [Start] that failed), every call of [Announce] and of [Peers]
    waits for ever: in a process made of such calls only, nothing can
    move, whatever their number, and no schedule performs a single
    event. *)
Theorem waiters_block_without_bootstrap E s ws :
  Forall (waits_on E s) ws →
  stuck (boot ws) ∧
  ∀ sched σ, exec sched (boot ws) = Some σ → sched = [] ∧ σ = boot ws.
Proof.
  intros Hws.
  assert (Hstuck : stuck (boot ws)).
  { intros c. unfold step, boot. simpl. destruct c as [i|i j].
    - destruct (ws !! i) as [t|] eqn:Hi; [|done].
      destruct (waits_on_ok E s t (proj1 (Forall_lookup _ _) Hws i t Hi))
        as [_ [t' ->]].
      simpl. by rewrite bool_decide_eq_true_2 by apply not_elem_of_empty.
    - destruct (ws !! i) as [t|] eqn:Hi; [|done].
      by destruct (waits_on_ok E s t (proj1 (Forall_lookup _ _) Hws i t Hi))
        as [_ [t' ->]]. }
  split; [done|]. intros [|c sched] σ; simpl.
  - by intros [= <-].
  - by rewrite Hstuck.
Qed.

Lemma waiters_block_without_bootstrap_witness :
  let E := demoEnv [] [] in
  stuck (boot [ events_of (Announce E "QmNet" PeerInfo_zero) demo_server;
                events_of (Peers E "QmNet" 1) demo_server ]).
Proof.
  intros E.
  apply (waiters_block_without_bootstrap E demo_server).
  repeat constructor. discriminate.
Defined.
